(** * Doctor appointment booking API: a shallow embedding of [src/index.js]

    The five Express route handlers of [index.js] are embedded as pure
    functions from a request and the in-memory [appointments] array to a
    handler outcome and the array afterwards.  Request fields are JavaScript
    values as [express.json()] produces them, so that the handlers' own
    tests ([!field], [===], [String.prototype.match], [Array.prototype.find],
    [includes], [splice]) are modelled with their JavaScript meaning. *)

From Stdlib Require Import ZArith NArith Ascii String.
From stdpp Require Import base tactics option list.

Local Open Scope string_scope.
Local Open Scope nat_scope.
Local Open Scope list_scope.

(** ** JavaScript values *)

Module Js.

(** A JavaScript string is a sequence of UTF-16 code units. *)
Definition jsstring := list N.

(** String literals of the source are written in ASCII. *)
Definition str (s : string) : jsstring :=
  List.map N_of_ascii (list_ascii_of_string s).

(** The values a field of a parsed JSON body can hold.  A field missing
    from the body destructures to [undefined].  Numbers are restricted to
    integer values.  An object or an array is kept as its JSON text. *)
Inductive jsval : Type :=
| JUndef
| JNull
| JBool (b : bool)
| JNum (n : Z)
| JStr (s : jsstring)
| JObj (json : jsstring).

#[global] Instance jsval_eq_dec : EqDecision jsval.
Proof. solve_decision. Defined.

(** ToBoolean: [!v] is [negb (truthy v)]. *)
Definition truthy (v : jsval) : bool :=
  match v with
  | JUndef | JNull => false
  | JBool b => b
  | JNum n => negb (n =? 0)%Z
  | JStr s => match s with [] => false | _ => true end
  | JObj _ => true
  end.

Definition jsstring_eqb (s t : jsstring) : bool := bool_decide (s = t).

(** Strict equality [a === b].  Two objects are equal only when they are
    the same reference.  The handlers compare a value parsed from the
    current request, or a catalog literal, with a stored one, and two
    objects met there are never the same reference; [modify] also compares
    stored doctor names with each other, but only after one of them was
    found equal to a catalog name, hence is a string. *)
Definition strict_eq (a b : jsval) : bool :=
  match a, b with
  | JUndef, JUndef => true
  | JNull, JNull => true
  | JBool x, JBool y => Bool.eqb x y
  | JNum x, JNum y => (x =? y)%Z
  | JStr x, JStr y => jsstring_eqb x y
  | _, _ => false
  end.

(** [arr.includes(v)] on an array of string literals (SameValueZero
    agrees with [===] on everything but NaN, which JSON cannot hold). *)
Definition includes (arr : list jsstring) (v : jsval) : bool :=
  existsb (fun x => strict_eq (JStr x) v) arr.

(** [arr.findIndex(p)], with [None] for the source's [-1]. *)
Fixpoint findIndex {A : Type} (p : A -> bool) (arr : list A) : option nat :=
  match arr with
  | [] => None
  | x :: rest => if p x then Some 0 else S <$> findIndex p rest
  end.

(** [arr.find(p)]: the first element satisfying [p], together with its
    position, which stands for the reference to the object that the
    source keeps and later mutates. *)
Definition find {A : Type} (p : A -> bool) (arr : list A) : option (nat * A) :=
  match findIndex p arr with
  | Some i => (fun x => (i, x)) <$> arr !! i
  | None => None
  end.

(** Exceptions a handler can raise. *)
Inductive exn : Type := TypeError.

(** Completion of an expression that may throw. *)
Inductive completion (A : Type) : Type :=
| Normal (a : A)
| Throw (e : exn).
Arguments Normal {A} a.
Arguments Throw {A} e.

End Js.
Import Js.

(** ** The e-mail pattern [/^[^\s@]+@[^\s@]+\.[^\s@]+$/] *)

Module Regex.

(** Character classes of the pattern, over code units. *)
Inductive cclass : Type :=
| Lit (c : N)            (* a literal character *)
| NotSpaceAt.            (* [^\s@] *)

(** [\s]: the WhiteSpace and LineTerminator code points. *)
Definition is_space (c : N) : bool :=
  ((9 <=? c) && (c <=? 13) || (c =? 32) || (c =? 160) || (c =? 5760)
   || (8192 <=? c) && (c <=? 8202) || (c =? 8232) || (c =? 8233)
   || (c =? 8239) || (c =? 8287) || (c =? 12288) || (c =? 65279))%N.

Definition at_sign : N := 64.
Definition dot : N := 46.

Definition in_class (k : cclass) (c : N) : bool :=
  match k with
  | Lit d => (c =? d)%N
  | NotSpaceAt => negb (is_space c || (c =? at_sign)%N)
  end.

Inductive regex : Type :=
| Void
| Eps
| Chr (k : cclass)
| Cat (r1 r2 : regex)
| Star (r : regex).

(** [r+] *)
Definition Plus (r : regex) : regex := Cat r (Star r).

Fixpoint nullable (r : regex) : bool :=
  match r with
  | Void => false
  | Eps => true
  | Chr _ => false
  | Cat r1 r2 => nullable r1 && nullable r2
  | Star _ => true
  end.

(** A regular expression with alternatives, kept as the list of its
    branches, so that derivatives stay within [regex]. *)
Fixpoint deriv (c : N) (r : regex) : list regex :=
  match r with
  | Void | Eps => []
  | Chr k => if in_class k c then [Eps] else []
  | Cat r1 r2 =>
      List.map (fun d => Cat d r2) (deriv c r1)
      ++ (if nullable r1 then deriv c r2 else [])
  | Star r1 => List.map (fun d => Cat d (Star r1)) (deriv c r1)
  end.

(** Anchored match [^r$] (no [m] flag: [$] is the end of the input). *)
Fixpoint matches_any (rs : list regex) (s : jsstring) : bool :=
  match s with
  | [] => existsb nullable rs
  | c :: rest => matches_any (List.concat (List.map (deriv c) rs)) rest
  end.

Definition matches (r : regex) (s : jsstring) : bool := matches_any [r] s.

End Regex.

Definition email_pattern : Regex.regex :=
  Regex.Cat (Regex.Plus (Regex.Chr Regex.NotSpaceAt))
    (Regex.Cat (Regex.Chr (Regex.Lit Regex.at_sign))
       (Regex.Cat (Regex.Plus (Regex.Chr Regex.NotSpaceAt))
          (Regex.Cat (Regex.Chr (Regex.Lit Regex.dot))
             (Regex.Plus (Regex.Chr Regex.NotSpaceAt))))).

(** [isValidEmail]: [email.match(...)] is an array (truthy) or [null]; on a
    value that is not a string, [email.match] is not a function and the
    call throws. *)
Definition isValidEmail (email : jsval) : completion bool :=
  match email with
  | JStr s => Normal (Regex.matches email_pattern s)
  | _ => Throw TypeError
  end.

(** ** Data model *)

Record Patient : Type := mkPatient {
  firstName : jsval;
  lastName : jsval;
  email : jsval
}.

Record Appointment : Type := mkAppointment {
  patient : Patient;
  timeSlot : jsval;
  doctorName : jsval;
  id : nat
}.

Record Doctor : Type := mkDoctor {
  name : jsstring;
  slots : list jsstring
}.

(** The in-memory [appointments] array. *)
Abbreviation store := (list Appointment).

Definition doctors : list Doctor :=
  [ mkDoctor (str "Dr. Smith")
      [str "9:00 AM - 10:00 AM"; str "10:00 AM - 11:00 AM"; str "2:00 PM - 3:00 PM"];
    mkDoctor (str "Dr. Johnson")
      [str "11:00 AM - 12:00 PM"; str "1:00 PM - 2:00 PM"; str "3:00 PM - 4:00 PM"] ].

(** [doctors.find(d => d.name === doctorName)] *)
Definition find_doctor (doctorName : jsval) : option Doctor :=
  snd <$> find (fun d => strict_eq (JStr (name d)) doctorName) doctors.

(** [findAppointment(email, timeSlot)], run against the array [appointments]. *)
Definition findAppointment (email0 timeSlot0 : jsval) (appointments : store)
  : option (nat * Appointment) :=
  find (fun apt =>
          strict_eq (email (patient apt)) email0
          && (negb (truthy timeSlot0) || strict_eq (timeSlot apt) timeSlot0))
       appointments.

(** ** Requests and responses *)

(** Body of [POST /api/appointments]. *)
Record BookRequest : Type := mkBook {
  book_firstName : jsval;
  book_lastName : jsval;
  book_email : jsval;
  book_timeSlot : jsval;
  book_doctorName : jsval
}.

(** Body of [DELETE /api/appointments]. *)
Record CancelRequest : Type := mkCancel {
  cancel_email : jsval;
  cancel_timeSlot : jsval
}.

(** Body of [PUT /api/appointments]. *)
Record ModifyRequest : Type := mkModify {
  modify_email : jsval;
  modify_originalTimeSlot : jsval;
  modify_newTimeSlot : jsval
}.

(** What [res.json] is given. *)
Inductive body : Type :=
| ErrorBody (error : string)
| MessageBody (message : string)
| AppointmentBody (apt : Appointment)
| AppointmentsBody (apts : list Appointment).

(** How a handler ends: with a response of some status, or with an
    exception that escapes it. *)
Inductive outcome : Type :=
| Reply (status : nat) (b : body)
| Uncaught (e : exn).

(** A response with a 2xx status that the handlers use. *)
Definition is_success (o : outcome) : bool :=
  match o with
  | Reply status _ => (status =? 200) || (status =? 201)
  | Uncaught _ => false
  end.

(** A response whose body is [{ error: ... }], or an escaped exception. *)
Definition is_error (o : outcome) : bool :=
  match o with
  | Reply _ (ErrorBody _) => true
  | Reply _ _ => false
  | Uncaught _ => true
  end.

(** ** The route handlers *)

(** None of the five fields of a book request is missing: each one passes
    the handler's [!field] test. *)
Definition all_present (rq : BookRequest) : Prop :=
  truthy (book_firstName rq) = true /\ truthy (book_lastName rq) = true
  /\ truthy (book_email rq) = true /\ truthy (book_timeSlot rq) = true
  /\ truthy (book_doctorName rq) = true.

(** The object literal that [book] builds once every test has passed. *)
Definition new_appointment (rq : BookRequest) (appointments : store)
  : Appointment :=
  {| patient := mkPatient (book_firstName rq) (book_lastName rq) (book_email rq);
     timeSlot := book_timeSlot rq;
     doctorName := book_doctorName rq;
     id := length appointments + 1 |}.

(** 1. [POST /api/appointments] *)
Definition book (rq : BookRequest) (appointments : store) : outcome * store :=
  let firstName := book_firstName rq in
  let lastName := book_lastName rq in
  let email := book_email rq in
  let timeSlot0 := book_timeSlot rq in
  let doctorName0 := book_doctorName rq in
  if negb (truthy firstName) || negb (truthy lastName) || negb (truthy email)
     || negb (truthy timeSlot0) || negb (truthy doctorName0)
  then (Reply 400 (ErrorBody "All fields are required"), appointments)
  else
    match isValidEmail email with
    | Throw e => (Uncaught e, appointments)
    | Normal false => (Reply 400 (ErrorBody "Invalid email format"), appointments)
    | Normal true =>
        match find_doctor doctorName0 with
        | None => (Reply 404 (ErrorBody "Doctor not found"), appointments)
        | Some doctor =>
            if negb (includes (slots doctor) timeSlot0)
            then (Reply 400 (ErrorBody "Invalid or unavailable time slot"), appointments)
            else
              match find (fun apt => strict_eq (doctorName apt) doctorName0
                                     && strict_eq (timeSlot apt) timeSlot0)
                         appointments with
              | Some _ => (Reply 400 (ErrorBody "Time slot already booked"), appointments)
              | None =>
                  let appointment := new_appointment rq appointments in
                  (Reply 201 (AppointmentBody appointment),
                   appointments ++ [appointment])
              end
        end
    end.

(** 2. [GET /api/appointments/patient/:email]; a route parameter is always
    a string. *)
Definition listByPatient (email0 : jsstring) (appointments : store)
  : outcome * store :=
  match isValidEmail (JStr email0) with
  | Throw e => (Uncaught e, appointments)
  | Normal false => (Reply 400 (ErrorBody "Invalid email format"), appointments)
  | Normal true =>
      let patientAppointments :=
        List.filter (fun apt => strict_eq (email (patient apt)) (JStr email0))
                    appointments in
      if length patientAppointments =? 0
      then (Reply 404 (ErrorBody "No appointments found"), appointments)
      else (Reply 200 (AppointmentsBody patientAppointments), appointments)
  end.

(** 3. [GET /api/appointments/doctor/:doctorName] *)
Definition listByDoctor (doctorName0 : jsstring) (appointments : store)
  : outcome * store :=
  match find_doctor (JStr doctorName0) with
  | None => (Reply 404 (ErrorBody "Doctor not found"), appointments)
  | Some _ =>
      let doctorAppointments :=
        List.filter (fun apt => strict_eq (doctorName apt) (JStr doctorName0))
                    appointments in
      (Reply 200 (AppointmentsBody doctorAppointments), appointments)
  end.

(** The test that [cancel] hands to [findIndex]:
    [apt.patient.email === email && apt.timeSlot === timeSlot]. *)
Definition cancel_target (email0 timeSlot0 : jsval) (apt : Appointment) : bool :=
  strict_eq (email (patient apt)) email0 && strict_eq (timeSlot apt) timeSlot0.

(** 4. [DELETE /api/appointments]; [splice(i, 1)] removes position [i]. *)
Definition cancel (rq : CancelRequest) (appointments : store) : outcome * store :=
  let email0 := cancel_email rq in
  let timeSlot0 := cancel_timeSlot rq in
  if negb (truthy email0) || negb (truthy timeSlot0)
  then (Reply 400 (ErrorBody "Email and time slot are required"), appointments)
  else
    match findIndex (cancel_target email0 timeSlot0) appointments with
    | None => (Reply 404 (ErrorBody "Appointment not found"), appointments)
    | Some appointmentIndex =>
        (Reply 200 (MessageBody "Appointment cancelled successfully"),
         delete appointmentIndex appointments)
    end.

(** [appointment.timeSlot = newTimeSlot] *)
Definition set_timeSlot (apt : Appointment) (newTimeSlot : jsval) : Appointment :=
  {| patient := patient apt;
     timeSlot := newTimeSlot;
     doctorName := doctorName apt;
     id := id apt |}.

(** 5. [PUT /api/appointments].  The object returned by [findAppointment]
    is the array element at position [i]; assigning to its [timeSlot]
    updates the array in place.  When the appointment's doctor is not in
    the catalog, [doctor] is [undefined] and [doctor.slots] throws. *)
Definition modify (rq : ModifyRequest) (appointments : store) : outcome * store :=
  let email0 := modify_email rq in
  let originalTimeSlot := modify_originalTimeSlot rq in
  let newTimeSlot := modify_newTimeSlot rq in
  if negb (truthy email0) || negb (truthy originalTimeSlot)
     || negb (truthy newTimeSlot)
  then (Reply 400 (ErrorBody "All fields are required"), appointments)
  else
    match findAppointment email0 originalTimeSlot appointments with
    | None => (Reply 404 (ErrorBody "Original appointment not found"), appointments)
    | Some (i, appointment) =>
        match find_doctor (doctorName appointment) with
        | None => (Uncaught TypeError, appointments)
        | Some doctor =>
            if negb (includes (slots doctor) newTimeSlot)
            then (Reply 400 (ErrorBody "Invalid or unavailable new time slot"),
                  appointments)
            else
              let slotTaken :=
                existsb (fun apt =>
                           strict_eq (doctorName apt) (doctorName appointment)
                           && strict_eq (timeSlot apt) newTimeSlot)
                        appointments in
              if slotTaken
              then (Reply 400 (ErrorBody "New time slot is already booked"),
                    appointments)
              else
                let appointment' := set_timeSlot appointment newTimeSlot in
                (Reply 200 (AppointmentBody appointment'),
                 <[i := appointment']> appointments)
        end
    end.

(** ** Runs of the mutating operations *)

Inductive op : Type :=
| Book (rq : BookRequest)
| Cancel (rq : CancelRequest)
| Modify (rq : ModifyRequest).

Definition apply_op (o : op) (appointments : store) : outcome * store :=
  match o with
  | Book rq => book rq appointments
  | Cancel rq => cancel rq appointments
  | Modify rq => modify rq appointments
  end.

(** The array after a sequence of requests, served one after the other. *)
Definition run (ops : list op) (appointments : store) : store :=
  fold_left (fun s o => snd (apply_op o s)) ops appointments.

(** States reachable from the empty array the server starts with. *)
Definition reachable (appointments : store) : Prop :=
  exists ops, run ops [] = appointments.

(** ** The invariant of the appointment array *)

(** The appointment is for a doctor of the catalog, at one of that doctor's
    slots. *)
Definition well_formed (a : Appointment) : Prop :=
  exists d ts, d ∈ doctors /\ doctorName a = JStr (name d)
               /\ ts ∈ slots d /\ timeSlot a = JStr ts.

(** No two positions of the array hold the same (doctorName, timeSlot). *)
Definition unique_slots (appointments : store) : Prop :=
  forall i j a b,
    appointments !! i = Some a -> appointments !! j = Some b ->
    doctorName a = doctorName b -> timeSlot a = timeSlot b -> i = j.

Definition invariant (appointments : store) : Prop :=
  Forall well_formed appointments /\ unique_slots appointments.

(** ** The strings a pattern denotes *)

(** The language of a pattern, against which the matcher is checked. *)
Inductive regex_lang : Regex.regex -> jsstring -> Prop :=
| lang_eps : regex_lang Regex.Eps []
| lang_chr k c : Regex.in_class k c = true -> regex_lang (Regex.Chr k) [c]
| lang_cat r1 r2 s1 s2 :
    regex_lang r1 s1 -> regex_lang r2 s2 ->
    regex_lang (Regex.Cat r1 r2) (s1 ++ s2)
| lang_star_nil r : regex_lang (Regex.Star r) []
| lang_star_cons r s1 s2 :
    regex_lang r s1 -> regex_lang (Regex.Star r) s2 ->
    regex_lang (Regex.Star r) (s1 ++ s2).

(** A code unit that [[^\s@]] accepts. *)
Definition plain (c : N) : Prop :=
  Regex.is_space c = false /\ c <> Regex.at_sign.

(** ** What every stored appointment satisfies *)

(** The email is one that [isValidEmail] accepts, the first and last names
    pass the [!field] test, and the id is at least one. *)
Definition fields_ok (a : Appointment) : Prop :=
  isValidEmail (email (patient a)) = Normal true
  /\ truthy (firstName (patient a)) = true
  /\ truthy (lastName (patient a)) = true
  /\ 1 <= id a.

(** A stored appointment is for a catalog doctor at one of that doctor's
    slots, and its other fields are as [book] checked them. *)
Definition valid_appointment (a : Appointment) : Prop :=
  well_formed a /\ fields_ok a.

(** The appointments a list endpoint sends, none when it sends an error. *)
Definition listed (o : outcome) : list Appointment :=
  match o with
  | Reply _ (AppointmentsBody apts) => apts
  | _ => []
  end.

(** ** Sample requests, as in [index.test.js] *)

Definition s9 : jsval := JStr (str "9:00 AM - 10:00 AM").
Definition s10 : jsval := JStr (str "10:00 AM - 11:00 AM").
Definition s14 : jsval := JStr (str "2:00 PM - 3:00 PM").
Definition smith : jsval := JStr (str "Dr. Smith").
Definition john_email : jsval := JStr (str "john@example.com").
Definition jane_email : jsval := JStr (str "jane@example.com").

Definition john_9 : BookRequest :=
  mkBook (JStr (str "John")) (JStr (str "Doe")) john_email s9 smith.
Definition jane_14 : BookRequest :=
  mkBook (JStr (str "Jane")) (JStr (str "Doe")) jane_email s14 smith.
Definition jane_10 : BookRequest :=
  mkBook (JStr (str "Jane")) (JStr (str "Doe")) jane_email s10 smith.

Definition john_apt : Appointment :=
  mkAppointment (mkPatient (JStr (str "John")) (JStr (str "Doe")) john_email)
    s9 smith 1.
Definition jane_apt : Appointment :=
  mkAppointment (mkPatient (JStr (str "Jane")) (JStr (str "Doe")) jane_email)
    s14 smith 2.

(** ** Checks of the embedding on the cases of [index.test.js] *)

Example isValidEmail_john :
  isValidEmail john_email = Normal true.
Proof. vm_compute. reflexivity. Qed.

Example isValidEmail_invalid :
  isValidEmail (JStr (str "invalid-email")) = Normal false.
Proof. vm_compute. reflexivity. Qed.

Example isValidEmail_space :
  isValidEmail (JStr (str "jo hn@example.com")) = Normal false.
Proof. vm_compute. reflexivity. Qed.

Example isValidEmail_dots :
  isValidEmail (JStr (str "a.b@c.d.e")) = Normal true.
Proof. vm_compute. reflexivity. Qed.

Example book_valid :
  book john_9 [] = (Reply 201 (AppointmentBody john_apt), [john_apt]).
Proof. vm_compute. reflexivity. Qed.

Example book_missing_email :
  fst (book (mkBook (JStr (str "John")) (JStr (str "Doe")) JUndef s9 smith) [])
  = Reply 400 (ErrorBody "All fields are required").
Proof. vm_compute. reflexivity. Qed.

Example book_unknown_doctor :
  fst (book (mkBook (JStr (str "John")) (JStr (str "Doe")) john_email s9
                 (JStr (str "Dr. NonExistent"))) [])
  = Reply 404 (ErrorBody "Doctor not found").
Proof. vm_compute. reflexivity. Qed.

Example book_twice :
  fst (book john_9 (run [Book john_9] []))
  = Reply 400 (ErrorBody "Time slot already booked").
Proof. vm_compute. reflexivity. Qed.

Example modify_free_slot :
  modify (mkModify john_email s9 s14) [john_apt]
  = (Reply 200 (AppointmentBody (set_timeSlot john_apt s14)),
     [set_timeSlot john_apt s14]).
Proof. vm_compute. reflexivity. Qed.

Example modify_taken_slot :
  modify (mkModify john_email s9 s14) (run [Book john_9; Book jane_14] [])
  = (Reply 400 (ErrorBody "New time slot is already booked"),
     [john_apt; jane_apt]).
Proof. vm_compute. reflexivity. Qed.

Example listByPatient_none :
  fst (listByPatient (str "nonexistent@example.com") [])
  = Reply 404 (ErrorBody "No appointments found").
Proof. vm_compute. reflexivity. Qed.

Example listByDoctor_smith :
  fst (listByDoctor (str "Dr. Smith") [john_apt])
  = Reply 200 (AppointmentsBody [john_apt]).
Proof. vm_compute. reflexivity. Qed.

Example listByDoctor_unknown :
  fst (listByDoctor (str "Dr. NonExistent") [john_apt])
  = Reply 404 (ErrorBody "Doctor not found").
Proof. vm_compute. reflexivity. Qed.

Example cancel_missing :
  cancel (mkCancel (JStr (str "nonexistent@example.com")) s9) []
  = (Reply 404 (ErrorBody "Appointment not found"), []).
Proof. vm_compute. reflexivity. Qed.

Example cancel_existing :
  cancel (mkCancel john_email s9) [john_apt]
  = (Reply 200 (MessageBody "Appointment cancelled successfully"), []).
Proof. vm_compute. reflexivity. Qed.

(** ** Facts about the JavaScript primitives *)

Section JsFacts.

Lemma strict_eq_eq (a b : jsval) : strict_eq a b = true -> a = b.
Proof.
  destruct a, b; simpl; try discriminate; try reflexivity; intros H.
  - apply Bool.eqb_prop in H. congruence.
  - apply Z.eqb_eq in H. congruence.
  - apply bool_decide_eq_true in H. congruence.
Qed.

Lemma strict_eq_str_r (v : jsval) (x : jsstring) :
  strict_eq v (JStr x) = true <-> v = JStr x.
Proof.
  split; [apply strict_eq_eq |].
  intros ->. simpl. apply bool_decide_eq_true. reflexivity.
Qed.

Lemma strict_eq_str_l (v : jsval) (x : jsstring) :
  strict_eq (JStr x) v = true <-> v = JStr x.
Proof.
  split.
  - intros H. symmetry. by apply strict_eq_eq.
  - intros ->. by apply strict_eq_str_r.
Qed.

Lemma strict_eq_str_false (v : jsval) (x : jsstring) :
  strict_eq v (JStr x) = false <-> v <> JStr x.
Proof.
  rewrite <- strict_eq_str_r. destruct (strict_eq v (JStr x)); split; congruence.
Qed.

Lemma truthy_str (x : jsstring) : truthy (JStr x) = true <-> x <> [].
Proof. destruct x; simpl; split; congruence. Qed.

Lemma includes_spec (arr : list jsstring) (v : jsval) :
  includes arr v = true <-> exists x, x ∈ arr /\ v = JStr x.
Proof.
  unfold includes. rewrite existsb_exists. split.
  - intros (x & Hin & Heq). exists x. split.
    + by apply list_elem_of_In.
    + by apply strict_eq_str_l.
  - intros (x & Hin & ->). exists x. split.
    + by apply list_elem_of_In.
    + by apply strict_eq_str_l.
Qed.

Context {A : Type} (p : A -> bool).

Lemma findIndex_Some (arr : list A) (i : nat) :
  findIndex p arr = Some i <->
  exists x, arr !! i = Some x /\ p x = true
            /\ forall j y, j < i -> arr !! j = Some y -> p y = false.
Proof.
  revert i. induction arr as [|a arr IH]; intros i; simpl.
  - split; [discriminate | intros (x & Hx & _); discriminate].
  - destruct (p a) eqn:Hpa.
    + split.
      * intros [= <-]. exists a. repeat split; [done | intros j y Hj; lia].
      * intros (x & Hx & Hpx & Hfirst). destruct i as [|i]; [done |].
        specialize (Hfirst 0 a). rewrite Hfirst in Hpa; [done | lia | done].
    + split.
      * destruct (findIndex p arr) as [k|]; [| discriminate].
        intros [= <-]. destruct (proj1 (IH k) eq_refl) as (x & Hx & Hpx & Hfirst).
        exists x. repeat split; [done.. |].
        intros [|j] y Hj Hy; simpl in Hy; [congruence |].
        apply (Hfirst j); [lia | done].
      * intros (x & Hx & Hpx & Hfirst). destruct i as [|i].
        { simpl in Hx. congruence. }
        simpl in Hx.
        assert (findIndex p arr = Some i) as ->; [| done].
        apply IH. exists x. repeat split; [done.. |].
        intros j y Hj Hy. apply (Hfirst (S j)); [lia | done].
Qed.

Lemma findIndex_None (arr : list A) :
  findIndex p arr = None <-> forall x, x ∈ arr -> p x = false.
Proof.
  induction arr as [|a arr IH]; simpl.
  - split; [intros _ x Hx; by apply not_elem_of_nil in Hx | done].
  - destruct (p a) eqn:Hpa.
    + split; [discriminate |]. intros H. rewrite H in Hpa; [done | left].
    + destruct (findIndex p arr) as [k|]; simpl.
      * split; [discriminate |]. intros H.
        assert (Some k = None) as Hk; [| discriminate Hk].
        apply IH. intros x Hx. apply H. by right.
      * split; [| done]. intros _ x Hx.
        apply elem_of_cons in Hx as [-> | Hx]; [done |].
        by apply IH.
Qed.

Lemma find_Some (arr : list A) (i : nat) (x : A) :
  find p arr = Some (i, x) <->
  arr !! i = Some x /\ p x = true
  /\ forall j y, j < i -> arr !! j = Some y -> p y = false.
Proof.
  unfold find. split.
  - destruct (findIndex p arr) as [k|] eqn:Hk; [| discriminate].
    apply findIndex_Some in Hk as (y & Hy & Hpy & Hfirst).
    rewrite Hy. simpl. intros [= <- <-]. done.
  - intros (Hx & Hpx & Hfirst).
    assert (findIndex p arr = Some i) as ->.
    { apply findIndex_Some. by exists x. }
    by rewrite Hx.
Qed.

Lemma find_None (arr : list A) :
  find p arr = None <-> forall x, x ∈ arr -> p x = false.
Proof.
  rewrite <- findIndex_None. unfold find.
  destruct (findIndex p arr) as [k|] eqn:Hk; [| done].
  apply findIndex_Some in Hk as (y & Hy & _). rewrite Hy. simpl.
  split; discriminate.
Qed.

Lemma existsb_elem_of (arr : list A) :
  existsb p arr = true <-> exists x, x ∈ arr /\ p x = true.
Proof.
  rewrite existsb_exists. split; intros (x & Hx & Hp); exists x;
    (split; [by apply list_elem_of_In | done]).
Qed.

Lemma existsb_false (arr : list A) :
  existsb p arr = false <-> forall x, x ∈ arr -> p x = false.
Proof.
  split.
  - intros H x Hx. destruct (p x) eqn:Hp; [| done].
    assert (existsb p arr = true); [| congruence].
    apply existsb_elem_of. by exists x.
  - intros H. destruct (existsb p arr) eqn:He; [| done].
    apply existsb_elem_of in He as (x & Hx & Hp).
    rewrite H in Hp; done.
Qed.

End JsFacts.

(** ** Facts about the doctor catalog *)

Section Catalog.

Lemma elem_of_doctors (d : Doctor) :
  d ∈ doctors <-> d = mkDoctor (str "Dr. Smith")
                        [str "9:00 AM - 10:00 AM"; str "10:00 AM - 11:00 AM";
                         str "2:00 PM - 3:00 PM"]
                  \/ d = mkDoctor (str "Dr. Johnson")
                           [str "11:00 AM - 12:00 PM"; str "1:00 PM - 2:00 PM";
                            str "3:00 PM - 4:00 PM"].
Proof.
  unfold doctors. rewrite !elem_of_cons, elem_of_nil. tauto.
Qed.

Lemma find_doctor_Some (v : jsval) (d : Doctor) :
  find_doctor v = Some d -> d ∈ doctors /\ v = JStr (name d).
Proof.
  unfold find_doctor.
  destruct (find _ doctors) as [[i d']|] eqn:Hf; [| discriminate].
  simpl. intros [= ->]. apply find_Some in Hf as (Hi & Hp & _). split.
  - by eapply list_elem_of_lookup_2.
  - by apply strict_eq_str_l.
Qed.

Lemma find_doctor_None (v : jsval) :
  find_doctor v = None -> forall d, d ∈ doctors -> v <> JStr (name d).
Proof.
  unfold find_doctor.
  destruct (find _ doctors) as [[i d']|] eqn:Hf; [discriminate |].
  intros _ d Hd Hv. rewrite find_None in Hf. specialize (Hf d Hd).
  apply strict_eq_str_l in Hv. cbv beta in Hf. congruence.
Qed.

(** Doctor names are keys of the catalog. *)
Lemma find_doctor_name (d : Doctor) :
  d ∈ doctors -> find_doctor (JStr (name d)) = Some d.
Proof.
  rewrite elem_of_doctors. intros [-> | ->]; vm_compute; reflexivity.
Qed.

Lemma name_inj (d1 d2 : Doctor) :
  d1 ∈ doctors -> d2 ∈ doctors -> name d1 = name d2 -> d1 = d2.
Proof.
  intros H1 H2 Hn. apply find_doctor_name in H1, H2.
  rewrite Hn in H1. congruence.
Qed.

(** Every slot label of the catalog is a non-empty string. *)
Lemma slot_truthy (d : Doctor) (ts : jsstring) :
  d ∈ doctors -> ts ∈ slots d -> truthy (JStr ts) = true.
Proof.
  rewrite elem_of_doctors. intros [-> | ->]; simpl;
    rewrite !elem_of_cons, elem_of_nil; intros [-> | [-> | [-> | []]]];
    reflexivity.
Qed.

Lemma name_truthy (d : Doctor) : d ∈ doctors -> truthy (JStr (name d)) = true.
Proof. rewrite elem_of_doctors. intros [-> | ->]; reflexivity. Qed.

(** No slot label is shared by two doctors. *)
Lemma slot_owner (d1 d2 : Doctor) (ts : jsstring) :
  d1 ∈ doctors -> d2 ∈ doctors -> ts ∈ slots d1 -> ts ∈ slots d2 -> d1 = d2.
Proof.
  rewrite !elem_of_doctors. intros [-> | ->] [-> | ->]; simpl; try reflexivity;
    rewrite !elem_of_cons, !elem_of_nil;
    intros [-> | [-> | [-> | []]]] [H | [H | [H | []]]];
    vm_compute in H; discriminate H.
Qed.

Lemma isValidEmail_Normal (v : jsval) (b : bool) :
  isValidEmail v = Normal b -> exists e, v = JStr e.
Proof. destruct v; simpl; try discriminate. eauto. Qed.

End Catalog.

(** ** Characterisation of the handlers *)

(** Splits on the tests a handler goes through, in the order it makes them. *)
Ltac handler_step :=
  match goal with
  | |- context [if ?c then _ else _] => destruct c eqn:?
  | |- context [match ?x with _ => _ end] => destruct x eqn:?
  end.

Ltac handler_cases := repeat (handler_step; simpl).

Section Book.

Variables (rq : BookRequest) (appointments : store).

Lemma book_failure :
  is_success (fst (book rq appointments)) = false ->
  snd (book rq appointments) = appointments.
Proof. unfold book. handler_cases; done. Qed.

Lemma book_success :
  is_success (fst (book rq appointments)) = true ->
  book rq appointments
  = (Reply 201 (AppointmentBody (new_appointment rq appointments)),
     appointments ++ [new_appointment rq appointments])
  /\ (exists d ts, d ∈ doctors /\ book_doctorName rq = JStr (name d)
                   /\ ts ∈ slots d /\ book_timeSlot rq = JStr ts)
  /\ (forall a, a ∈ appointments ->
                ~ (doctorName a = book_doctorName rq
                   /\ timeSlot a = book_timeSlot rq)).
Proof.
  unfold book. handler_cases; try discriminate. intros _.
  split; [reflexivity |].
  match goal with H : find_doctor _ = Some ?d |- _ =>
    apply find_doctor_Some in H as [Hd Hname] end.
  match goal with H : negb (includes _ _) = false |- _ =>
    apply negb_false_iff, includes_spec in H as (ts & Hts & Hslot) end.
  split; [by eauto 10 |].
  intros apt0 Hapt0 [Hdn Hsl].
  match goal with H : find _ _ = None |- _ =>
    rewrite find_None in H; specialize (H apt0 Hapt0); simpl in H end.
  rewrite Hdn, Hsl, Hname, Hslot in *.
  rewrite (proj2 (strict_eq_str_r _ _) eq_refl) in *.
  rewrite (proj2 (strict_eq_str_r _ _) eq_refl) in *. done.
Qed.

(** When every test passes, the appointment is appended. *)
Lemma book_accepts (d : Doctor) (ts : jsstring) :
  truthy (book_firstName rq) = true ->
  truthy (book_lastName rq) = true ->
  isValidEmail (book_email rq) = Normal true ->
  d ∈ doctors -> book_doctorName rq = JStr (name d) ->
  ts ∈ slots d -> book_timeSlot rq = JStr ts ->
  (forall a, a ∈ appointments ->
             ~ (doctorName a = book_doctorName rq
                /\ timeSlot a = book_timeSlot rq)) ->
  book rq appointments
  = (Reply 201 (AppointmentBody (new_appointment rq appointments)),
     appointments ++ [new_appointment rq appointments]).
Proof.
  intros Hfn Hln Hem Hd Hname Hts Hslot Hfree.
  assert (truthy (book_email rq) = true) as Hte.
  { destruct (book_email rq) as [| | | |e|]; try discriminate.
    destruct e; [vm_compute in Hem; discriminate | reflexivity]. }
  unfold book. rewrite Hfn, Hln, Hte, Hem, Hname, Hslot.
  rewrite (slot_truthy d ts), (name_truthy d), (find_doctor_name d) by done.
  simpl.
  rewrite (proj2 (includes_spec (slots d) (JStr ts))) by eauto. simpl.
  destruct (find _ appointments) as [[i a]|] eqn:Hf.
  - apply find_Some in Hf as (Hi & Hp & _).
    apply andb_true_iff in Hp as [H1 H2].
    apply strict_eq_str_r in H1, H2.
    destruct (Hfree a); [by eapply list_elem_of_lookup_2 | ].
    by rewrite Hname, Hslot.
  - unfold new_appointment. by rewrite Hname, Hslot.
Qed.

End Book.

Section Cancel.

Variables (rq : CancelRequest) (appointments : store).

Lemma cancel_failure :
  is_success (fst (cancel rq appointments)) = false ->
  snd (cancel rq appointments) = appointments.
Proof. unfold cancel. handler_cases; done. Qed.

Lemma cancel_success :
  is_success (fst (cancel rq appointments)) = true ->
  exists i,
    findIndex (cancel_target (cancel_email rq) (cancel_timeSlot rq)) appointments
    = Some i
    /\ cancel rq appointments
       = (Reply 200 (MessageBody "Appointment cancelled successfully"),
          delete i appointments).
Proof. unfold cancel. handler_cases; try discriminate. eauto. Qed.

Lemma cancel_found (i : nat) :
  truthy (cancel_email rq) = true -> truthy (cancel_timeSlot rq) = true ->
  findIndex (cancel_target (cancel_email rq) (cancel_timeSlot rq)) appointments
  = Some i ->
  cancel rq appointments
  = (Reply 200 (MessageBody "Appointment cancelled successfully"),
     delete i appointments).
Proof. intros He Ht Hi. unfold cancel. by rewrite He, Ht, Hi. Qed.

Lemma cancel_not_found :
  truthy (cancel_email rq) = true -> truthy (cancel_timeSlot rq) = true ->
  findIndex (cancel_target (cancel_email rq) (cancel_timeSlot rq)) appointments
  = None ->
  cancel rq appointments
  = (Reply 404 (ErrorBody "Appointment not found"), appointments).
Proof. intros He Ht Hi. unfold cancel. by rewrite He, Ht, Hi. Qed.

End Cancel.

Section Modify.

Variables (rq : ModifyRequest) (appointments : store).

Lemma modify_failure :
  is_success (fst (modify rq appointments)) = false ->
  snd (modify rq appointments) = appointments.
Proof. unfold modify. handler_cases; done. Qed.

Lemma modify_success :
  is_success (fst (modify rq appointments)) = true ->
  exists i a d,
    findAppointment (modify_email rq) (modify_originalTimeSlot rq) appointments
    = Some (i, a)
    /\ find_doctor (doctorName a) = Some d
    /\ includes (slots d) (modify_newTimeSlot rq) = true
    /\ existsb (fun apt => strict_eq (doctorName apt) (doctorName a)
                           && strict_eq (timeSlot apt) (modify_newTimeSlot rq))
               appointments = false
    /\ modify rq appointments
       = (Reply 200 (AppointmentBody (set_timeSlot a (modify_newTimeSlot rq))),
          <[i := set_timeSlot a (modify_newTimeSlot rq)]> appointments).
Proof.
  unfold modify. handler_cases; try discriminate. intros _.
  match goal with H : negb _ = false |- _ => apply negb_false_iff in H end.
  eauto 10.
Qed.

(** The tests [modify] makes once the three fields are there and the
    original appointment and its doctor are found. *)
Lemma modify_located (i : nat) (a : Appointment) (d : Doctor) :
  truthy (modify_email rq) = true ->
  truthy (modify_originalTimeSlot rq) = true ->
  truthy (modify_newTimeSlot rq) = true ->
  findAppointment (modify_email rq) (modify_originalTimeSlot rq) appointments
  = Some (i, a) ->
  find_doctor (doctorName a) = Some d ->
  includes (slots d) (modify_newTimeSlot rq) = true ->
  modify rq appointments
  = if existsb (fun apt => strict_eq (doctorName apt) (doctorName a)
                           && strict_eq (timeSlot apt) (modify_newTimeSlot rq))
               appointments
    then (Reply 400 (ErrorBody "New time slot is already booked"), appointments)
    else (Reply 200 (AppointmentBody (set_timeSlot a (modify_newTimeSlot rq))),
          <[i := set_timeSlot a (modify_newTimeSlot rq)]> appointments).
Proof.
  intros He Ho Hn Hf Hd Hi. unfold modify.
  by rewrite He, Ho, Hn, Hf, Hd, Hi.
Qed.

End Modify.

(** ** Preservation of the invariant *)

Section Invariant.

Lemma invariant_nil : invariant [].
Proof.
  split; [constructor |]. intros i j a b Hi. by destruct i.
Qed.

Lemma invariant_book (rq : BookRequest) (appointments : store) :
  invariant appointments -> invariant (snd (book rq appointments)).
Proof.
  intros [Hwf Huniq].
  destruct (is_success (fst (book rq appointments))) eqn:Hs.
  - apply book_success in Hs as (-> & (d & ts & Hd & Hname & Hts & Hslot) & Hfree).
    simpl. split.
    + apply Forall_app. split; [done |]. constructor; [| constructor].
      exists d, ts. done.
    + intros i j a b Hi Hj Hdn Hsl.
      apply lookup_snoc_Some in Hi as [[Hil Hi] | [-> <-]];
        apply lookup_snoc_Some in Hj as [[Hjl Hj] | [-> <-]].
      * by eapply Huniq.
      * simpl in Hdn, Hsl. destruct (Hfree a); [| done].
        by eapply list_elem_of_lookup_2.
      * simpl in Hdn, Hsl. destruct (Hfree b); [| done].
        by eapply list_elem_of_lookup_2.
      * reflexivity.
  - rewrite book_failure by done. by split.
Qed.

Lemma unique_slots_delete (appointments : store) (k : nat) :
  unique_slots appointments -> unique_slots (delete k appointments).
Proof.
  intros Huniq i j a b Hi Hj Hdn Hsl.
  rewrite list_lookup_delete in Hi, Hj.
  destruct (decide (i < k)), (decide (j < k));
    pose proof (Huniq _ _ _ _ Hi Hj Hdn Hsl); lia.
Qed.

Lemma invariant_cancel (rq : CancelRequest) (appointments : store) :
  invariant appointments -> invariant (snd (cancel rq appointments)).
Proof.
  intros [Hwf Huniq].
  destruct (is_success (fst (cancel rq appointments))) eqn:Hs.
  - apply cancel_success in Hs as (i & _ & ->). simpl. split.
    + by apply Forall_delete.
    + by apply unique_slots_delete.
  - rewrite cancel_failure by done. by split.
Qed.

Lemma invariant_modify (rq : ModifyRequest) (appointments : store) :
  invariant appointments -> invariant (snd (modify rq appointments)).
Proof.
  intros [Hwf Huniq].
  destruct (is_success (fst (modify rq appointments))) eqn:Hs.
  - apply modify_success in Hs as (i & a & d & Hf & Hd & Hinc & Hfree & ->).
    apply find_doctor_Some in Hd as [Hd Hname].
    apply includes_spec in Hinc as (ts & Hts & Hnew).
    apply find_Some in Hf as (Hi & _).
    rewrite existsb_false in Hfree. simpl. split.
    + apply Forall_insert; [done |]. exists d, ts. done.
    + intros p q x y Hp Hq Hdn Hsl.
      apply list_lookup_insert_Some in Hp as [(-> & <- & Hlen) | [Hpi Hp]];
        apply list_lookup_insert_Some in Hq as [(-> & <- & Hlen') | [Hqi Hq]].
      * reflexivity.
      * simpl in Hdn, Hsl.
        specialize (Hfree y (list_elem_of_lookup_2 _ _ _ Hq)). simpl in Hfree.
        rewrite <- Hdn, <- Hsl, Hname, Hnew in Hfree.
        rewrite !(proj2 (strict_eq_str_r _ _) eq_refl) in Hfree. done.
      * simpl in Hdn, Hsl.
        specialize (Hfree x (list_elem_of_lookup_2 _ _ _ Hp)). simpl in Hfree.
        rewrite Hdn, Hsl, Hname, Hnew in Hfree.
        rewrite !(proj2 (strict_eq_str_r _ _) eq_refl) in Hfree. done.
      * by eapply Huniq.
  - rewrite modify_failure by done. by split.
Qed.

Lemma invariant_run (ops : list op) (appointments : store) :
  invariant appointments -> invariant (run ops appointments).
Proof.
  revert appointments. induction ops as [|o ops IH]; intros s Hs; [done |].
  simpl. apply IH. destruct o; simpl.
  - by apply invariant_book.
  - by apply invariant_cancel.
  - by apply invariant_modify.
Qed.

Lemma reachable_invariant (appointments : store) :
  reachable appointments -> invariant appointments.
Proof. intros [ops <-]. apply invariant_run, invariant_nil. Qed.

End Invariant.

(** An outcome of a mutating handler is an error exactly when it is not a
    success. *)
Lemma apply_op_error (o : op) (appointments : store) :
  is_error (fst (apply_op o appointments))
  = negb (is_success (fst (apply_op o appointments))).
Proof.
  destruct o as [rq|rq|rq]; simpl;
    [unfold book | unfold cancel | unfold modify]; handler_cases; reflexivity.
Qed.

Lemma apply_op_failure (o : op) (appointments : store) :
  is_success (fst (apply_op o appointments)) = false ->
  snd (apply_op o appointments) = appointments.
Proof.
  destruct o; simpl; [apply book_failure | apply cancel_failure | apply modify_failure].
Qed.

(** ** Further facts used below *)

Lemma findIndex_middle {A : Type} (p : A -> bool) (l1 l2 : list A) (x : A) :
  (forall y, y ∈ l1 -> p y = false) -> p x = true ->
  findIndex p (l1 ++ x :: l2) = Some (length l1).
Proof.
  intros Hl1 Hx. induction l1 as [|y l1 IH]; simpl.
  - by rewrite Hx.
  - rewrite (Hl1 y) by left. rewrite IH; [done |].
    intros z Hz. apply Hl1. by right.
Qed.

(** JavaScript's [filter] with the test [apt.patient.email === email], for
    a string [email], keeps the appointments whose email is that string. *)
Lemma filter_email (e : jsstring) (appointments : store) :
  List.filter (fun apt => strict_eq (email (patient apt)) (JStr e)) appointments
  = filter (fun apt => email (patient apt) = JStr e) appointments.
Proof.
  induction appointments as [|a l IH]; [done |].
  simpl. rewrite filter_cons, IH.
  destruct (strict_eq (email (patient a)) (JStr e)) eqn:Heq.
  - apply strict_eq_str_r in Heq. by rewrite decide_True.
  - apply strict_eq_str_false in Heq. by rewrite decide_False.
Qed.

(** An appointment that [cancel] takes as its target has the email and the
    slot of the request, and for string fields the converse holds. *)
Lemma cancel_target_eq (email0 timeSlot0 : jsval) (a : Appointment) :
  cancel_target email0 timeSlot0 a = true ->
  email (patient a) = email0 /\ timeSlot a = timeSlot0.
Proof.
  unfold cancel_target. intros H. apply andb_true_iff in H as [H1 H2].
  split; by apply strict_eq_eq.
Qed.

Lemma cancel_target_str (e t : jsstring) (a : Appointment) :
  cancel_target (JStr e) (JStr t) a = true <->
  email (patient a) = JStr e /\ timeSlot a = JStr t.
Proof.
  unfold cancel_target. by rewrite andb_true_iff, !strict_eq_str_r.
Qed.

(** In a state that satisfies the invariant the slot alone tells the
    appointments apart, since no slot label belongs to two doctors. *)
Lemma invariant_slot_unique (appointments : store) (i j : nat) (a b : Appointment) :
  invariant appointments ->
  appointments !! i = Some a -> appointments !! j = Some b ->
  timeSlot a = timeSlot b -> i = j.
Proof.
  intros [Hwf Huniq] Hi Hj Hsl.
  rewrite Forall_lookup in Hwf.
  destruct (Hwf i a Hi) as (da & tsa & Hda & Hna & Htsa & Hsa).
  destruct (Hwf j b Hj) as (db & tsb & Hdb & Hnb & Htsb & Hsb).
  assert (tsa = tsb) as -> by congruence.
  assert (da = db) as -> by (by eapply slot_owner).
  eapply Huniq; [done.. | congruence | done].
Qed.

(** ** Properties of the appointment registry *)

(** C1.  In every state reachable from the empty array by book, cancel and
    modify requests, no two positions hold an appointment with the same
    (doctorName, timeSlot); [book] refuses a request for a pair that an
    appointment already holds, and [modify] refuses a move to a slot that
    another appointment of the same doctor holds; both leave the array as
    it was. *)
Theorem no_double_booking (appointments : store) :
  reachable appointments ->
  unique_slots appointments
  /\ (forall rq a,
        a ∈ appointments ->
        doctorName a = book_doctorName rq -> timeSlot a = book_timeSlot rq ->
        is_success (fst (book rq appointments)) = false
        /\ snd (book rq appointments) = appointments)
  /\ (forall rq i a j b,
        findAppointment (modify_email rq) (modify_originalTimeSlot rq) appointments
        = Some (i, a) ->
        appointments !! j = Some b -> j <> i ->
        doctorName b = doctorName a -> timeSlot b = modify_newTimeSlot rq ->
        is_success (fst (modify rq appointments)) = false
        /\ snd (modify rq appointments) = appointments).
Proof.
  intros Hreach. apply reachable_invariant in Hreach as [Hwf Huniq].
  split; [exact Huniq |]. split.
  - intros rq a Ha Hdn Hsl.
    destruct (is_success (fst (book rq appointments))) eqn:Hs.
    + apply book_success in Hs as (_ & _ & Hfree). by destruct (Hfree a Ha).
    + split; [reflexivity |]. by apply book_failure.
  - intros rq i a j b Hfind Hj Hne Hdn Hsl.
    destruct (is_success (fst (modify rq appointments))) eqn:Hs.
    + apply modify_success in Hs as (i' & a' & d & Hf & Hd & Hinc & Hfree & _).
      rewrite Hfind in Hf. injection Hf as <- <-.
      apply find_doctor_Some in Hd as [_ Hname].
      apply includes_spec in Hinc as (ts & _ & Hnew).
      rewrite existsb_false in Hfree.
      specialize (Hfree b (list_elem_of_lookup_2 _ _ _ Hj)). simpl in Hfree.
      rewrite Hdn, Hsl, Hname, Hnew in Hfree.
      rewrite !(proj2 (strict_eq_str_r _ _) eq_refl) in Hfree. done.
    + split; [reflexivity |]. by apply modify_failure.
Qed.

Lemma no_double_booking_witness :
  reachable [john_apt; jane_apt]
  /\ unique_slots [john_apt; jane_apt]
  /\ (forall rq a,
        a ∈ [john_apt; jane_apt] ->
        doctorName a = book_doctorName rq -> timeSlot a = book_timeSlot rq ->
        is_success (fst (book rq [john_apt; jane_apt])) = false
        /\ snd (book rq [john_apt; jane_apt]) = [john_apt; jane_apt])
  /\ (forall rq i a j b,
        findAppointment (modify_email rq) (modify_originalTimeSlot rq)
          [john_apt; jane_apt] = Some (i, a) ->
        [john_apt; jane_apt] !! j = Some b -> j <> i ->
        doctorName b = doctorName a -> timeSlot b = modify_newTimeSlot rq ->
        is_success (fst (modify rq [john_apt; jane_apt])) = false
        /\ snd (modify rq [john_apt; jane_apt]) = [john_apt; jane_apt]).
Proof.
  assert (reachable [john_apt; jane_apt]) as Hreach.
  { exists [Book john_9; Book jane_14]. vm_compute. reflexivity. }
  split; [exact Hreach |].
  exact (no_double_booking [john_apt; jane_apt] Hreach).
Defined.

(** C2.  Ids are not kept apart once an appointment has been cancelled:
    after booking two appointments, cancelling the first and booking again,
    the new appointment gets [length + 1 = 2], the id that the remaining
    appointment already has. *)
Theorem id_reused_after_cancel :
  let s := run [Book john_9; Book jane_10; Cancel (mkCancel john_email s9);
                Book john_9] [] in
  reachable s
  /\ s = [ mkAppointment
             (mkPatient (JStr (str "Jane")) (JStr (str "Doe")) jane_email)
             s10 smith 2;
           mkAppointment
             (mkPatient (JStr (str "John")) (JStr (str "Doe")) john_email)
             s9 smith 2 ]
  /\ exists a b, s !! 0 = Some a /\ s !! 1 = Some b /\ id a = id b.
Proof.
  intros s. split; [by eexists |].
  split; [vm_compute; reflexivity |].
  vm_compute. eauto.
Qed.

(** C3, as stated, fails when the new slot is the original one: on the
    reachable array holding John's 9:00 appointment alone, the request to
    move it from 9:00 to 9:00 locates it, 9:00 is a slot of its doctor, the
    answer is the conflict error, and no other appointment holds 9:00. *)
Lemma modify_conflict_without_other :
  let appointments := [john_apt] in
  let rq := mkModify john_email s9 s9 in
  reachable appointments
  /\ findAppointment (modify_email rq) (modify_originalTimeSlot rq) appointments
     = Some (0, john_apt)
  /\ (exists d ts, d ∈ doctors /\ doctorName john_apt = JStr (name d)
                   /\ ts ∈ slots d /\ modify_newTimeSlot rq = JStr ts)
  /\ modify rq appointments
     = (Reply 400 (ErrorBody "New time slot is already booked"), appointments)
  /\ ~ (exists j b, j <> 0 /\ appointments !! j = Some b
                    /\ doctorName b = doctorName john_apt
                    /\ timeSlot b = modify_newTimeSlot rq).
Proof.
  intros appointments rq. split; [| split; [| split; [| split]]].
  - exists [Book john_9]. vm_compute. reflexivity.
  - vm_compute. reflexivity.
  - exists (mkDoctor (str "Dr. Smith")
              [str "9:00 AM - 10:00 AM"; str "10:00 AM - 11:00 AM";
               str "2:00 PM - 3:00 PM"]), (str "9:00 AM - 10:00 AM").
    split; [apply elem_of_doctors; by left |].
    split; [reflexivity |]. split; [left | reflexivity].
  - vm_compute. reflexivity.
  - intros (j & b & Hj & Hb & _). destruct j as [|j]; [done |].
    destruct j; discriminate Hb.
Qed.

(** C3, amended.  For a modify request whose fields are there, whose
    (email, originalTimeSlot) locates an appointment and whose newTimeSlot
    is a slot of that appointment's doctor, the answer is the conflict
    error exactly when some appointment of that doctor, the located one
    included, holds newTimeSlot.  When originalTimeSlot differs from
    newTimeSlot the located appointment does not hold it, so the error is
    given exactly when another appointment of that doctor holds it; when
    they are equal the error is always given. *)
Theorem modify_conflict_iff_held
    (rq : ModifyRequest) (appointments : store)
    (i : nat) (a : Appointment) (d : Doctor) (ts : jsstring) :
  truthy (modify_email rq) = true ->
  truthy (modify_originalTimeSlot rq) = true ->
  findAppointment (modify_email rq) (modify_originalTimeSlot rq) appointments
  = Some (i, a) ->
  d ∈ doctors -> doctorName a = JStr (name d) ->
  ts ∈ slots d -> modify_newTimeSlot rq = JStr ts ->
  let conflict :=
    fst (modify rq appointments)
    = Reply 400 (ErrorBody "New time slot is already booked") in
  (conflict <-> exists j b, appointments !! j = Some b
                           /\ doctorName b = doctorName a
                           /\ timeSlot b = modify_newTimeSlot rq)
  /\ (modify_originalTimeSlot rq <> modify_newTimeSlot rq ->
      (conflict <-> exists j b, j <> i /\ appointments !! j = Some b
                               /\ doctorName b = doctorName a
                               /\ timeSlot b = modify_newTimeSlot rq))
  /\ (modify_originalTimeSlot rq = modify_newTimeSlot rq -> conflict).
Proof.
  intros He Ho Hfind Hd Hname Hts Hnew conflict.
  assert (truthy (modify_newTimeSlot rq) = true) as Hn.
  { rewrite Hnew. by eapply slot_truthy. }
  assert (find_doctor (doctorName a) = Some d) as Hfd.
  { rewrite Hname. by apply find_doctor_name. }
  assert (includes (slots d) (modify_newTimeSlot rq) = true) as Hinc.
  { apply includes_spec. eauto. }
  pose proof (modify_located rq appointments i a d He Ho Hn Hfind Hfd Hinc) as Hm.
  apply find_Some in Hfind as (Hi & Hp & _).
  apply andb_true_iff in Hp as [_ Hslot]. rewrite Ho in Hslot. simpl in Hslot.
  apply strict_eq_eq in Hslot.
  assert (conflict <-> exists j b, appointments !! j = Some b
                                  /\ doctorName b = doctorName a
                                  /\ timeSlot b = modify_newTimeSlot rq) as Hiff.
  { subst conflict. rewrite Hm.
    destruct (existsb _ appointments) eqn:Hex; simpl.
    - split; [intros _ | reflexivity].
      apply existsb_elem_of in Hex as (b & Hb & Hpb).
      apply andb_true_iff in Hpb as [H1 H2]. apply strict_eq_eq in H1, H2.
      apply list_elem_of_lookup_1 in Hb as [j Hj]. eauto.
    - split; [discriminate |]. intros (j & b & Hj & Hdn & Hsl).
      rewrite existsb_false in Hex.
      specialize (Hex b (list_elem_of_lookup_2 _ _ _ Hj)). simpl in Hex.
      rewrite Hdn, Hsl, Hname, Hnew in Hex.
      rewrite !(proj2 (strict_eq_str_r _ _) eq_refl) in Hex. done. }
  split; [exact Hiff |]. split.
  - intros Hne. rewrite Hiff. split.
    + intros (j & b & Hj & Hdn & Hsl). exists j, b. repeat split; try done.
      intros ->. rewrite Hi in Hj. injection Hj as <-. congruence.
    + intros (j & b & _ & Hj & Hdn & Hsl). eauto.
  - intros Heq. apply Hiff. exists i, a. repeat split; [done |]. congruence.
Qed.

Lemma modify_conflict_iff_held_witness :
  let rq := mkModify john_email s9 s14 in
  let appointments := [john_apt; jane_apt] in
  let conflict :=
    fst (modify rq appointments)
    = Reply 400 (ErrorBody "New time slot is already booked") in
  (conflict <-> exists j b, appointments !! j = Some b
                           /\ doctorName b = doctorName john_apt
                           /\ timeSlot b = modify_newTimeSlot rq)
  /\ (modify_originalTimeSlot rq <> modify_newTimeSlot rq ->
      (conflict <-> exists j b, j <> 0 /\ appointments !! j = Some b
                               /\ doctorName b = doctorName john_apt
                               /\ timeSlot b = modify_newTimeSlot rq))
  /\ (modify_originalTimeSlot rq = modify_newTimeSlot rq -> conflict).
Proof.
  apply (modify_conflict_iff_held (mkModify john_email s9 s14)
           [john_apt; jane_apt] 0 john_apt
           (mkDoctor (str "Dr. Smith")
              [str "9:00 AM - 10:00 AM"; str "10:00 AM - 11:00 AM";
               str "2:00 PM - 3:00 PM"])
           (str "2:00 PM - 3:00 PM")).
  - reflexivity.
  - reflexivity.
  - vm_compute. reflexivity.
  - apply elem_of_doctors. left. reflexivity.
  - reflexivity.
  - simpl. right. right. left.
  - reflexivity.
Defined.

(** C4.  A book request whose five fields are there (each passes the
    handler's [!field] test), whose email matches the pattern, whose
    doctorName is in the catalog, whose timeSlot is a slot of that doctor
    and whose (doctorName, timeSlot) no appointment holds, appends exactly
    one appointment at the end of the array: its id is the former length
    plus one, its patient, doctorName and timeSlot are the request's; that
    appointment is returned with status 201, and its email is the
    request's. *)
Theorem book_appends
    (rq : BookRequest) (appointments : store) (d : Doctor) (ts : jsstring) :
  truthy (book_firstName rq) = true ->
  truthy (book_lastName rq) = true ->
  truthy (book_email rq) = true ->
  truthy (book_timeSlot rq) = true ->
  truthy (book_doctorName rq) = true ->
  isValidEmail (book_email rq) = Normal true ->
  d ∈ doctors -> book_doctorName rq = JStr (name d) ->
  ts ∈ slots d -> book_timeSlot rq = JStr ts ->
  (forall a, a ∈ appointments ->
             ~ (doctorName a = book_doctorName rq
                /\ timeSlot a = book_timeSlot rq)) ->
  exists created,
    book rq appointments
    = (Reply 201 (AppointmentBody created), appointments ++ [created])
    /\ id created = length appointments + 1
    /\ firstName (patient created) = book_firstName rq
    /\ lastName (patient created) = book_lastName rq
    /\ email (patient created) = book_email rq
    /\ doctorName created = book_doctorName rq
    /\ timeSlot created = book_timeSlot rq.
Proof.
  intros Hfn Hln _ _ _ Hem Hd Hname Hts Hslot Hfree.
  eexists. split.
  - by eapply book_accepts.
  - simpl. repeat split.
Qed.

Lemma book_appends_witness :
  exists created,
    book jane_14 [john_apt]
    = (Reply 201 (AppointmentBody created), [john_apt] ++ [created])
    /\ id created = length [john_apt] + 1
    /\ firstName (patient created) = book_firstName jane_14
    /\ lastName (patient created) = book_lastName jane_14
    /\ email (patient created) = book_email jane_14
    /\ doctorName created = book_doctorName jane_14
    /\ timeSlot created = book_timeSlot jane_14.
Proof.
  apply (book_appends jane_14 [john_apt]
           (mkDoctor (str "Dr. Smith")
              [str "9:00 AM - 10:00 AM"; str "10:00 AM - 11:00 AM";
               str "2:00 PM - 3:00 PM"])
           (str "2:00 PM - 3:00 PM")).
  - reflexivity.
  - reflexivity.
  - reflexivity.
  - reflexivity.
  - reflexivity.
  - vm_compute. reflexivity.
  - apply elem_of_doctors. left. reflexivity.
  - reflexivity.
  - simpl. right. right. left.
  - reflexivity.
  - intros a Ha [_ Hsl]. apply list_elem_of_singleton in Ha. subst a.
    vm_compute in Hsl. discriminate Hsl.
Defined.

(** The order of [book]'s tests when [isValidEmail] returns: the first
    test that fails decides the answer, and the array is left as it was. *)
Section BookErrors.

Variables (rq : BookRequest) (appointments : store).

Lemma book_missing :
  ~ all_present rq ->
  book rq appointments
  = (Reply 400 (ErrorBody "All fields are required"), appointments).
Proof.
  unfold all_present, book. intros Hm.
  destruct (truthy (book_firstName rq)), (truthy (book_lastName rq)),
    (truthy (book_email rq)), (truthy (book_timeSlot rq)),
    (truthy (book_doctorName rq)); simpl; try reflexivity.
  destruct Hm. done.
Qed.

Lemma book_malformed :
  all_present rq -> isValidEmail (book_email rq) = Normal false ->
  book rq appointments
  = (Reply 400 (ErrorBody "Invalid email format"), appointments).
Proof.
  intros (Hfn & Hln & Hte & Htt & Htd) Hem. unfold book.
  by rewrite Hfn, Hln, Hte, Htt, Htd, Hem.
Qed.

Lemma book_unknown :
  all_present rq -> isValidEmail (book_email rq) = Normal true ->
  (forall d, d ∈ doctors -> book_doctorName rq <> JStr (name d)) ->
  book rq appointments
  = (Reply 404 (ErrorBody "Doctor not found"), appointments).
Proof.
  intros (Hfn & Hln & Hte & Htt & Htd) Hem Hunk. unfold book.
  rewrite Hfn, Hln, Hte, Htt, Htd, Hem. simpl.
  destruct (find_doctor (book_doctorName rq)) as [d|] eqn:Hfd; [| done].
  apply find_doctor_Some in Hfd as [Hd Hname]. by destruct (Hunk d Hd).
Qed.

Lemma book_unavailable (d : Doctor) :
  all_present rq -> isValidEmail (book_email rq) = Normal true ->
  d ∈ doctors -> book_doctorName rq = JStr (name d) ->
  (forall ts, ts ∈ slots d -> book_timeSlot rq <> JStr ts) ->
  book rq appointments
  = (Reply 400 (ErrorBody "Invalid or unavailable time slot"), appointments).
Proof.
  intros (Hfn & Hln & Hte & Htt & Htd) Hem Hd Hname Hun. unfold book.
  rewrite Hfn, Hln, Hte, Htt, Htd, Hem, Hname, (find_doctor_name d Hd). simpl.
  destruct (includes (slots d) (book_timeSlot rq)) eqn:Hinc; [| done].
  apply includes_spec in Hinc as (ts & Hts & Hslot). by destruct (Hun ts Hts).
Qed.

Lemma book_taken (d : Doctor) (ts : jsstring) (a : Appointment) :
  all_present rq -> isValidEmail (book_email rq) = Normal true ->
  d ∈ doctors -> book_doctorName rq = JStr (name d) ->
  ts ∈ slots d -> book_timeSlot rq = JStr ts ->
  a ∈ appointments ->
  doctorName a = book_doctorName rq -> timeSlot a = book_timeSlot rq ->
  book rq appointments
  = (Reply 400 (ErrorBody "Time slot already booked"), appointments).
Proof.
  intros (Hfn & Hln & Hte & Htt & Htd) Hem Hd Hname Hts Hslot Ha Hdn Hsl.
  unfold book.
  rewrite Hfn, Hln, Hte, Htt, Htd, Hem, Hname, (find_doctor_name d Hd). simpl.
  rewrite Hslot, (proj2 (includes_spec (slots d) (JStr ts))) by eauto. simpl.
  destruct (find _ appointments) as [[k x]|] eqn:Hf; [reflexivity |].
  rewrite find_None in Hf. specialize (Hf a Ha). simpl in Hf.
  rewrite Hdn, Hsl, Hname, Hslot in Hf.
  rewrite !(proj2 (strict_eq_str_r _ _) eq_refl) in Hf. done.
Qed.

End BookErrors.

(** C5.  [book] does not answer 400 'Invalid email format' to every
    malformed email: an email that is there but is not a string, as in the
    body [{"firstName":"John","lastName":"Doe","email":5,
    "timeSlot":"9:00 AM - 10:00 AM","doctorName":"Dr. Smith"}], makes
    [email.match] throw a TypeError, and no JSON error is sent. *)
Theorem book_email_not_a_string :
  let rq := mkBook (JStr (str "John")) (JStr (str "Doe")) (JNum 5) s9 smith in
  truthy (book_email rq) = true
  /\ book rq [] = (Uncaught TypeError, [])
  /\ fst (book rq []) <> Reply 400 (ErrorBody "Invalid email format").
Proof. intros rq. vm_compute. repeat split. discriminate. Qed.

(** C6.  A book, cancel or modify request that is answered with an error
    (an [{ error }] body of any status, or an exception) leaves the array
    exactly as it was. *)
Theorem error_leaves_store (o : op) (appointments : store) :
  is_error (fst (apply_op o appointments)) = true ->
  snd (apply_op o appointments) = appointments.
Proof.
  rewrite apply_op_error. intros H. apply negb_true_iff in H.
  by apply apply_op_failure.
Qed.

Lemma error_leaves_store_witness :
  is_error (fst (apply_op (Modify (mkModify john_email s9 s14))
                   [john_apt; jane_apt])) = true
  /\ snd (apply_op (Modify (mkModify john_email s9 s14)) [john_apt; jane_apt])
     = [john_apt; jane_apt].
Proof.
  split; [vm_compute; reflexivity |].
  apply (error_leaves_store (Modify (mkModify john_email s9 s14))
           [john_apt; jane_apt]).
  vm_compute. reflexivity.
Defined.

(** C7.  [listByPatient] never changes the array.  A malformed email is
    answered 400 'Invalid email format'; a well-formed one that no
    appointment has is answered 404 'No appointments found'; otherwise the
    answer is 200 with the appointments whose patient email is the given
    one, each of them, in the order of the array. *)
Theorem listByPatient_spec (e : jsstring) (appointments : store) :
  snd (listByPatient e appointments) = appointments
  /\ (isValidEmail (JStr e) = Normal false ->
      fst (listByPatient e appointments)
      = Reply 400 (ErrorBody "Invalid email format"))
  /\ (isValidEmail (JStr e) = Normal true ->
      (forall a, a ∈ appointments -> email (patient a) <> JStr e) ->
      fst (listByPatient e appointments)
      = Reply 404 (ErrorBody "No appointments found"))
  /\ (isValidEmail (JStr e) = Normal true ->
      (exists a, a ∈ appointments /\ email (patient a) = JStr e) ->
      fst (listByPatient e appointments)
      = Reply 200 (AppointmentsBody
                     (filter (fun a => email (patient a) = JStr e) appointments))).
Proof.
  unfold listByPatient. rewrite filter_email.
  set (found := filter (fun a => email (patient a) = JStr e) appointments).
  split; [| split; [| split]].
  - destruct (isValidEmail (JStr e)) as [[|]|]; [| done..].
    by destruct (length found =? 0).
  - by intros ->.
  - intros -> Hnone.
    assert (found = []) as ->; [| done].
    destruct found as [|x l] eqn:Hfound; [done |].
    assert (x ∈ found) as Hx by (rewrite Hfound; left).
    apply list_elem_of_filter in Hx as [Hpx Hin]. by destruct (Hnone x Hin).
  - intros -> (a & Ha & Hpa).
    assert (a ∈ found) as Hin by (by apply list_elem_of_filter).
    destruct found as [|x l]; [by apply not_elem_of_nil in Hin | done].
Qed.

Lemma listByPatient_spec_witness :
  isValidEmail john_email = Normal true
  /\ (exists a, a ∈ [john_apt; jane_apt] /\ email (patient a) = john_email)
  /\ fst (listByPatient (str "john@example.com") [john_apt; jane_apt])
     = Reply 200 (AppointmentsBody [john_apt]).
Proof.
  assert (isValidEmail john_email = Normal true) as Hv
    by (vm_compute; reflexivity).
  assert (exists a, a ∈ [john_apt; jane_apt] /\ email (patient a) = john_email)
    as Hex by (exists john_apt; split; [left | reflexivity]).
  split; [exact Hv |]. split; [exact Hex |].
  exact (proj2 (proj2 (proj2
    (listByPatient_spec (str "john@example.com") [john_apt; jane_apt]))) Hv Hex).
Defined.

(** C8.  For a cancel request with both fields there: when no appointment
    matches (email, timeSlot) the answer is 404 'Appointment not found' and
    the array is unchanged; when one matches, the first such appointment is
    removed, the appointments before and after it stay, in their order, and
    the answer is 200.  In a reachable state at most one appointment
    matches, so that the same request, sent again right after a successful
    cancel, is answered 404. *)
Theorem cancel_spec (rq : CancelRequest) (appointments : store) :
  truthy (cancel_email rq) = true ->
  truthy (cancel_timeSlot rq) = true ->
  let target := cancel_target (cancel_email rq) (cancel_timeSlot rq) in
  ((forall a, a ∈ appointments -> target a = false) ->
   cancel rq appointments
   = (Reply 404 (ErrorBody "Appointment not found"), appointments))
  /\ (forall before a after,
        appointments = before ++ a :: after ->
        (forall b, b ∈ before -> target b = false) -> target a = true ->
        cancel rq appointments
        = (Reply 200 (MessageBody "Appointment cancelled successfully"),
           before ++ after))
  /\ (reachable appointments ->
      is_success (fst (cancel rq appointments)) = true ->
      fst (cancel rq (snd (cancel rq appointments)))
      = Reply 404 (ErrorBody "Appointment not found")).
Proof.
  intros He Ht target. split; [| split].
  - intros Hnone. apply cancel_not_found; [done.. |]. by apply findIndex_None.
  - intros before a after -> Hbefore Ha.
    rewrite (cancel_found rq _ (length before)); [| done.. |].
    + by rewrite delete_middle.
    + by apply findIndex_middle.
  - intros Hreach Hs. apply reachable_invariant in Hreach.
    apply cancel_success in Hs as (i & Hi & ->). simpl.
    rewrite cancel_not_found; [done.. |].
    apply findIndex_None. intros x Hx.
    destruct (cancel_target _ _ x) eqn:Hpx; [| done].
    apply findIndex_Some in Hi as (a & Hia & Hpa & _).
    apply list_elem_of_lookup_1 in Hx as [k Hk].
    apply andb_true_iff in Hpa as [_ Hsa], Hpx as [_ Hsx].
    apply strict_eq_eq in Hsa, Hsx.
    assert (timeSlot a = timeSlot x) as Hsl by congruence.
    destruct (decide (k < i)).
    + rewrite list_lookup_delete_lt in Hk by done.
      pose proof (invariant_slot_unique _ _ _ _ _ Hreach Hia Hk Hsl). lia.
    + rewrite list_lookup_delete_ge in Hk by lia.
      pose proof (invariant_slot_unique _ _ _ _ _ Hreach Hia Hk Hsl). lia.
Qed.

Lemma cancel_spec_witness :
  let rq := mkCancel jane_email s14 in
  truthy (cancel_email rq) = true
  /\ truthy (cancel_timeSlot rq) = true
  /\ reachable [john_apt; jane_apt]
  /\ cancel rq [john_apt; jane_apt]
     = (Reply 200 (MessageBody "Appointment cancelled successfully"), [john_apt])
  /\ fst (cancel rq (snd (cancel rq [john_apt; jane_apt])))
     = Reply 404 (ErrorBody "Appointment not found").
Proof.
  intros rq.
  assert (reachable [john_apt; jane_apt]) as Hreach.
  { exists [Book john_9; Book jane_14]. vm_compute. reflexivity. }
  destruct (cancel_spec rq [john_apt; jane_apt] eq_refl eq_refl)
    as (_ & Hfirst & Htwice).
  split; [reflexivity |]. split; [reflexivity |]. split; [exact Hreach |]. split.
  - apply (Hfirst [john_apt] jane_apt []).
    + reflexivity.
    + intros b Hb. apply list_elem_of_singleton in Hb. subst b.
      vm_compute. reflexivity.
    + vm_compute. reflexivity.
  - apply Htwice; [exact Hreach |]. vm_compute. reflexivity.
Defined.

(** C9.  A successful modify changes only the timeSlot of the located
    appointment: the array keeps its length, every other position is as
    before, the located position holds an appointment with the same id,
    patient and doctorName and with timeSlot equal to newTimeSlot, and that
    appointment is the one returned, with status 200. *)
Theorem modify_frame (rq : ModifyRequest) (appointments : store) :
  is_success (fst (modify rq appointments)) = true ->
  exists i located updated,
    findAppointment (modify_email rq) (modify_originalTimeSlot rq) appointments
    = Some (i, located)
    /\ appointments !! i = Some located
    /\ fst (modify rq appointments) = Reply 200 (AppointmentBody updated)
    /\ id updated = id located
    /\ patient updated = patient located
    /\ doctorName updated = doctorName located
    /\ timeSlot updated = modify_newTimeSlot rq
    /\ length (snd (modify rq appointments)) = length appointments
    /\ snd (modify rq appointments) !! i = Some updated
    /\ (forall j, j <> i ->
                  snd (modify rq appointments) !! j = appointments !! j).
Proof.
  intros Hs.
  apply modify_success in Hs as (i & a & d & Hf & _ & _ & _ & ->).
  exists i, a, (set_timeSlot a (modify_newTimeSlot rq)).
  pose proof Hf as Hf'. apply find_Some in Hf' as (Hi & _).
  simpl. repeat split; try done.
  - apply length_insert.
  - apply list_lookup_insert_eq. by eapply lookup_lt_Some.
  - intros j Hj. by apply list_lookup_insert_ne.
Qed.

Lemma modify_frame_witness :
  is_success (fst (modify (mkModify john_email s9 s10) [john_apt; jane_apt])) = true
  /\ exists i located updated,
       findAppointment john_email s9 [john_apt; jane_apt] = Some (i, located)
       /\ [john_apt; jane_apt] !! i = Some located
       /\ fst (modify (mkModify john_email s9 s10) [john_apt; jane_apt])
          = Reply 200 (AppointmentBody updated)
       /\ id updated = id located
       /\ patient updated = patient located
       /\ doctorName updated = doctorName located
       /\ timeSlot updated = s10
       /\ length (snd (modify (mkModify john_email s9 s10) [john_apt; jane_apt]))
          = length [john_apt; jane_apt]
       /\ snd (modify (mkModify john_email s9 s10) [john_apt; jane_apt]) !! i
          = Some updated
       /\ (forall j, j <> i ->
                     snd (modify (mkModify john_email s9 s10) [john_apt; jane_apt]) !! j
                     = [john_apt; jane_apt] !! j).
Proof.
  assert (is_success (fst (modify (mkModify john_email s9 s10)
                             [john_apt; jane_apt])) = true) as Hs
    by (vm_compute; reflexivity).
  split; [exact Hs |].
  exact (modify_frame (mkModify john_email s9 s10) [john_apt; jane_apt] Hs).
Defined.

(** C10.  A book request in which one of the five fields is the empty
    string is answered 400 'All fields are required', whatever the other
    fields are, and the array is unchanged; an empty email is therefore
    never answered 'Invalid email format'. *)
Theorem book_empty_string (rq : BookRequest) (appointments : store) :
  book_firstName rq = JStr [] \/ book_lastName rq = JStr []
  \/ book_email rq = JStr [] \/ book_timeSlot rq = JStr []
  \/ book_doctorName rq = JStr [] ->
  book rq appointments
  = (Reply 400 (ErrorBody "All fields are required"), appointments)
  /\ fst (book rq appointments) <> Reply 400 (ErrorBody "Invalid email format").
Proof.
  intros Hempty.
  assert (book rq appointments
          = (Reply 400 (ErrorBody "All fields are required"), appointments)) as ->.
  { apply book_missing. intros (Hfn & Hln & Hte & Htt & Htd).
    destruct Hempty as [H | [H | [H | [H | H]]]]; rewrite H in *; discriminate. }
  split; [reflexivity | discriminate].
Qed.

Lemma book_empty_string_witness :
  let rq := mkBook (JStr (str "John")) (JStr (str "Doe")) (JStr []) s9 smith in
  book rq [john_apt]
  = (Reply 400 (ErrorBody "All fields are required"), [john_apt])
  /\ fst (book rq [john_apt]) <> Reply 400 (ErrorBody "Invalid email format").
Proof.
  apply (book_empty_string
           (mkBook (JStr (str "John")) (JStr (str "Doe")) (JStr []) s9 smith)
           [john_apt]).
  right. right. left. reflexivity.
Defined.

(** ** The e-mail pattern, read as a set of strings *)

Section RegexFacts.

Import Regex.

Lemma nullable_lang (r : regex) : nullable r = true <-> regex_lang r [].
Proof.
  split.
  - induction r; simpl; try discriminate; intros H.
    + constructor.
    + apply andb_true_iff in H as [H1 H2].
      change (@nil N) with (@nil N ++ []). constructor; auto.
    + constructor.
  - remember [] as s eqn:Hs. intros H. induction H; simpl; try done.
    apply app_eq_nil in Hs as [-> ->]. rewrite IHregex_lang1, IHregex_lang2; done.
Qed.

Lemma deriv_sound (c : N) (r d : regex) (s : jsstring) :
  d ∈ deriv c r -> regex_lang d s -> regex_lang r (c :: s).
Proof.
  revert d s. induction r as [| |k|r1 IH1 r2 IH2|r IH]; simpl; intros d s Hd Hl.
  - by apply not_elem_of_nil in Hd.
  - by apply not_elem_of_nil in Hd.
  - destruct (in_class k c) eqn:Hk; [| by apply not_elem_of_nil in Hd].
    apply list_elem_of_singleton in Hd. subst d. inversion Hl; subst.
    by constructor.
  - apply elem_of_app in Hd as [Hd | Hd].
    + apply list_elem_of_In, in_map_iff in Hd as (d1 & <- & Hd1).
      apply list_elem_of_In in Hd1.
      inversion Hl; subst.
      change (c :: s1 ++ s2) with ((c :: s1) ++ s2). constructor; eauto.
    + destruct (nullable r1) eqn:Hn; [| by apply not_elem_of_nil in Hd].
      apply nullable_lang in Hn.
      change (c :: s) with ([] ++ c :: s). constructor; eauto.
  - apply list_elem_of_In, in_map_iff in Hd as (d1 & <- & Hd1).
    apply list_elem_of_In in Hd1.
    inversion Hl; subst.
    change (c :: s1 ++ s2) with ((c :: s1) ++ s2). constructor; eauto.
Qed.

Lemma deriv_complete (c : N) (r : regex) (s : jsstring) :
  regex_lang r (c :: s) -> exists d, d ∈ deriv c r /\ regex_lang d s.
Proof.
  remember (c :: s) as cs eqn:Hcs. intros H. revert c s Hcs.
  induction H as [|k c0 Hk|r1 r2 s1 s2 H1 IH1 H2 IH2| |r s1 s2 H1 IH1 H2 IH2];
    intros c s Hcs; simpl.
  - discriminate.
  - injection Hcs as -> <-. rewrite Hk. exists Eps. split; [left | constructor].
  - destruct s1 as [|c1 s1]; simpl in Hcs.
    + destruct (IH2 c s Hcs) as (d & Hd & Hl). exists d. split; [| done].
      apply elem_of_app. right.
      by rewrite (proj2 (nullable_lang r1) H1).
    + injection Hcs as -> <-. destruct (IH1 c s1 eq_refl) as (d & Hd & Hl).
      exists (Cat d r2). split; [| by constructor].
      apply elem_of_app. left. apply list_elem_of_In, in_map_iff.
      exists d. split; [done | by apply list_elem_of_In].
  - discriminate.
  - destruct s1 as [|c1 s1]; simpl in Hcs.
    + by apply IH2.
    + injection Hcs as -> <-. destruct (IH1 c s1 eq_refl) as (d & Hd & Hl).
      exists (Cat d (Star r)). split; [| by constructor].
      apply list_elem_of_In, in_map_iff.
      exists d. split; [done | by apply list_elem_of_In].
Qed.

Lemma matches_any_lang (rs : list regex) (s : jsstring) :
  matches_any rs s = true <-> exists r, r ∈ rs /\ regex_lang r s.
Proof.
  revert rs. induction s as [|c s IH]; intros rs; simpl.
  - rewrite existsb_elem_of. split; intros (r & Hr & H); exists r;
      (split; [done | by apply nullable_lang]).
  - rewrite IH. split.
    + intros (d & Hd & Hl).
      apply list_elem_of_In, in_concat in Hd as (ds & Hds & Hd).
      apply in_map_iff in Hds as (r & <- & Hr).
      exists r. split; [by apply list_elem_of_In |].
      eapply deriv_sound; [| done]. by apply list_elem_of_In.
    + intros (r & Hr & Hl). apply deriv_complete in Hl as (d & Hd & Hl).
      exists d. split; [| done].
      apply list_elem_of_In, in_concat. exists (deriv c r).
      split; [| by apply list_elem_of_In].
      apply in_map_iff. exists r. split; [done | by apply list_elem_of_In].
Qed.

Lemma matches_lang (r : regex) (s : jsstring) :
  matches r s = true <-> regex_lang r s.
Proof.
  unfold matches. rewrite matches_any_lang. split.
  - intros (r' & Hr & H). apply list_elem_of_singleton in Hr. by subst.
  - intros H. exists r. split; [left | done].
Qed.

Lemma in_class_plain (c : N) : in_class NotSpaceAt c = true <-> plain c.
Proof.
  unfold plain. simpl. rewrite negb_true_iff, orb_false_iff, N.eqb_neq. done.
Qed.

Lemma lang_star_plain (s : jsstring) :
  regex_lang (Star (Chr NotSpaceAt)) s <-> Forall plain s.
Proof.
  split.
  - remember (Star (Chr NotSpaceAt)) as r eqn:Hr. intros H.
    induction H; try discriminate; [constructor |].
    injection Hr as ->. apply Forall_app. split; [| auto].
    inversion H; subst. constructor; [| constructor]. by apply in_class_plain.
  - induction 1 as [|c s Hc _ IH]; [constructor |].
    change (c :: s) with ([c] ++ s). constructor; [| done].
    constructor. by apply in_class_plain.
Qed.

Lemma lang_plus_plain (s : jsstring) :
  regex_lang (Plus (Chr NotSpaceAt)) s <-> s <> [] /\ Forall plain s.
Proof.
  unfold Plus. split.
  - intros H. inversion H as [| |r1 r2 s1 s2 H1 H2| |]; subst.
    inversion H1; subst. apply lang_star_plain in H2. split; [done |].
    constructor; [by apply in_class_plain | done].
  - intros [Hne Hall]. destruct s as [|c s]; [done |].
    apply Forall_cons in Hall as [Hc Hs].
    change (c :: s) with ([c] ++ s). constructor.
    + constructor. by apply in_class_plain.
    + by apply lang_star_plain.
Qed.

Lemma lang_lit (c : N) (s : jsstring) :
  regex_lang (Chr (Lit c)) s <-> s = [c].
Proof.
  split.
  - intros H. inversion H; subst. simpl in *.
    match goal with H : (_ =? _)%N = true |- _ => apply N.eqb_eq in H end.
    by subst.
  - intros ->. constructor. simpl. apply N.eqb_refl.
Qed.

End RegexFacts.

(** ** Further properties of the handlers *)

(** The parts of a string that the e-mail pattern matches. *)
Lemma email_pattern_parts (s : jsstring) :
  Regex.matches email_pattern s = true ->
  exists local domain tld,
    s = local ++ Regex.at_sign :: domain ++ Regex.dot :: tld
    /\ local <> [] /\ domain <> [] /\ tld <> []
    /\ Forall plain local /\ Forall plain domain /\ Forall plain tld.
Proof.
  intros H. apply matches_lang in H. unfold email_pattern in H.
  inversion H as [| |? ? local rest1 Hlocal Hrest1| |]; subst.
  inversion Hrest1 as [| |? ? at1 rest2 Hat Hrest2| |]; subst.
  inversion Hrest2 as [| |? ? domain rest3 Hdomain Hrest3| |]; subst.
  inversion Hrest3 as [| |? ? dot1 tld Hdot Htld| |]; subst.
  apply lang_lit in Hat, Hdot. subst.
  apply lang_plus_plain in Hlocal as [? ?], Hdomain as [? ?], Htld as [? ?].
  exists local, domain, tld. done.
Qed.

(** X1.  [isValidEmail] accepts exactly the strings of the form
    local [@] domain [.] tld in which the three parts are non-empty and
    hold neither whitespace nor [@]. *)
Theorem isValidEmail_shape (s : jsstring) :
  isValidEmail (JStr s) = Normal true <->
  exists local domain tld,
    s = local ++ Regex.at_sign :: domain ++ Regex.dot :: tld
    /\ local <> [] /\ domain <> [] /\ tld <> []
    /\ Forall plain local /\ Forall plain domain /\ Forall plain tld.
Proof.
  simpl. split.
  - intros [= H]. by apply email_pattern_parts.
  - intros (local & domain & tld & -> & Hl & Hd & Ht & Hpl & Hpd & Hpt).
    f_equal. apply matches_lang. unfold email_pattern.
    constructor; [by apply lang_plus_plain |].
    change (Regex.at_sign :: domain ++ Regex.dot :: tld)
      with ([Regex.at_sign] ++ domain ++ [Regex.dot] ++ tld).
    constructor; [by apply lang_lit |].
    constructor; [by apply lang_plus_plain |].
    constructor; [by apply lang_lit | by apply lang_plus_plain].
Qed.

(** X2.  An email that [isValidEmail] accepts holds no whitespace and
    exactly one [@]. *)
Theorem isValidEmail_one_at (s : jsstring) :
  isValidEmail (JStr s) = Normal true ->
  Forall (fun c => Regex.is_space c = false) s
  /\ length (filter (fun c => c = Regex.at_sign) s) = 1.
Proof.
  intros [= H]. apply email_pattern_parts in H
    as (local & domain & tld & -> & _ & _ & _ & Hpl & Hpd & Hpt).
  assert (forall l, Forall plain l -> filter (fun c => c = Regex.at_sign) l = [])
    as Hnone.
  { induction 1 as [|c l [_ Hc] _ IH]; [done |].
    by rewrite filter_cons_False. }
  assert (Regex.dot <> Regex.at_sign) as Hdot by discriminate.
  assert (plain Regex.dot) as Hpdot by (split; [reflexivity | done]).
  split.
  - apply Forall_app. split; [by eapply Forall_impl; [exact Hpl | intros c []] |].
    constructor; [reflexivity |].
    apply Forall_app. split; [by eapply Forall_impl; [exact Hpd | intros c []] |].
    constructor; [reflexivity |].
    by eapply Forall_impl; [exact Hpt | intros c []].
  - unfold jsstring in *. rewrite filter_app, filter_cons_True by done.
    rewrite filter_app, filter_cons_False by done.
    rewrite !Hnone by done. reflexivity.
Qed.

Lemma isValidEmail_one_at_witness :
  isValidEmail (JStr (str "john@example.com")) = Normal true
  /\ Forall (fun c => Regex.is_space c = false) (str "john@example.com")
  /\ length (filter (fun c => c = Regex.at_sign) (str "john@example.com")) = 1.
Proof.
  assert (isValidEmail (JStr (str "john@example.com")) = Normal true) as H
    by (vm_compute; reflexivity).
  split; [exact H |].
  exact (isValidEmail_one_at (str "john@example.com") H).
Defined.

Lemma filter_doctorName (n : jsstring) (appointments : store) :
  List.filter (fun apt => strict_eq (doctorName apt) (JStr n)) appointments
  = filter (fun apt => doctorName apt = JStr n) appointments.
Proof.
  induction appointments as [|a l IH]; [done |].
  simpl. rewrite filter_cons, IH.
  destruct (strict_eq (doctorName a) (JStr n)) eqn:Heq.
  - apply strict_eq_str_r in Heq. by rewrite decide_True.
  - apply strict_eq_str_false in Heq. by rewrite decide_False.
Qed.

(** X3.  [listByDoctor] never changes the array.  A name that is not in the
    catalog is answered 404 'Doctor not found'; a catalog name is answered
    200 with the appointments of that doctor, in the order of the array,
    and that also when there are none. *)
Theorem listByDoctor_spec (n : jsstring) (appointments : store) :
  snd (listByDoctor n appointments) = appointments
  /\ ((forall d, d ∈ doctors -> n <> name d) ->
      fst (listByDoctor n appointments)
      = Reply 404 (ErrorBody "Doctor not found"))
  /\ ((exists d, d ∈ doctors /\ n = name d) ->
      fst (listByDoctor n appointments)
      = Reply 200 (AppointmentsBody
                     (filter (fun a => doctorName a = JStr n) appointments))).
Proof.
  unfold listByDoctor. rewrite filter_doctorName.
  destruct (find_doctor (JStr n)) as [d|] eqn:Hfd; simpl.
  - apply find_doctor_Some in Hfd as [Hd [= Hn]].
    split; [done |]. split; [| done].
    intros Hunk. by destruct (Hunk d Hd).
  - split; [done |]. split; [done |].
    intros (d & Hd & ->). by rewrite find_doctor_name in Hfd.
Qed.

Lemma listByDoctor_spec_witness :
  (exists d, d ∈ doctors /\ str "Dr. Johnson" = name d)
  /\ fst (listByDoctor (str "Dr. Johnson") [john_apt; jane_apt])
     = Reply 200 (AppointmentsBody []).
Proof.
  assert (exists d, d ∈ doctors /\ str "Dr. Johnson" = name d) as Hex.
  { exists (mkDoctor (str "Dr. Johnson")
              [str "11:00 AM - 12:00 PM"; str "1:00 PM - 2:00 PM";
               str "3:00 PM - 4:00 PM"]).
    split; [apply elem_of_doctors; by right | reflexivity]. }
  split; [exact Hex |].
  exact (proj2 (proj2 (listByDoctor_spec (str "Dr. Johnson")
                         [john_apt; jane_apt])) Hex).
Defined.

Lemma doctor_views_perm (appointments : store) :
  Forall well_formed appointments ->
  concat (List.map (fun d => listed (fst (listByDoctor (name d) appointments)))
            doctors)
  ≡ₚ appointments.
Proof.
  unfold doctors, listByDoctor. simpl. rewrite app_nil_r.
  change (find_doctor (JStr (str "Dr. Smith"))) with
    (Some (mkDoctor (str "Dr. Smith")
             [str "9:00 AM - 10:00 AM"; str "10:00 AM - 11:00 AM";
              str "2:00 PM - 3:00 PM"])).
  change (find_doctor (JStr (str "Dr. Johnson"))) with
    (Some (mkDoctor (str "Dr. Johnson")
             [str "11:00 AM - 12:00 PM"; str "1:00 PM - 2:00 PM";
              str "3:00 PM - 4:00 PM"])).
  simpl.
  induction 1 as [|a l (d & ts & Hd & Hname & _) _ IH]; [done |].
  simpl. rewrite Hname.
  apply elem_of_doctors in Hd as [-> | ->].
  - change (strict_eq (JStr _) (JStr (str "Dr. Smith"))) with true.
    change (strict_eq (JStr _) (JStr (str "Dr. Johnson"))) with false.
    simpl. by f_equiv.
  - change (strict_eq (JStr _) (JStr (str "Dr. Smith"))) with false.
    change (strict_eq (JStr _) (JStr (str "Dr. Johnson"))) with true.
    simpl. rewrite <- Permutation_middle. by f_equiv.
Qed.

(** X4.  In a reachable state the doctors' lists share the array out:
    putting together what [listByDoctor] sends for each doctor of the
    catalog gives every stored appointment exactly once. *)
Theorem doctor_views_partition (appointments : store) :
  reachable appointments ->
  concat (List.map (fun d => listed (fst (listByDoctor (name d) appointments)))
            doctors)
  ≡ₚ appointments.
Proof.
  intros Hreach. apply reachable_invariant in Hreach as [Hwf _].
  by apply doctor_views_perm.
Qed.

Lemma doctor_views_partition_witness :
  reachable [john_apt; jane_apt]
  /\ concat (List.map
               (fun d => listed (fst (listByDoctor (name d) [john_apt; jane_apt])))
               doctors)
     ≡ₚ [john_apt; jane_apt].
Proof.
  assert (reachable [john_apt; jane_apt]) as Hreach.
  { exists [Book john_9; Book jane_14]. vm_compute. reflexivity. }
  split; [exact Hreach |].
  exact (doctor_views_partition [john_apt; jane_apt] Hreach).
Defined.

(** X5.  With a slot that passes the [!timeSlot] test, [findAppointment]
    returns the appointment at the position that [cancel]'s [findIndex]
    finds for the same email and slot; with a slot that does not, it
    returns the first appointment of that email, whatever its slot. *)
Theorem findAppointment_spec
    (e t : jsval) (appointments : store) (i : nat) (a : Appointment) :
  (truthy t = true ->
   (findAppointment e t appointments = Some (i, a) <->
    findIndex (cancel_target e t) appointments = Some i
    /\ appointments !! i = Some a))
  /\ (truthy t = false ->
      (findAppointment e t appointments = Some (i, a) <->
       appointments !! i = Some a
       /\ strict_eq (email (patient a)) e = true
       /\ forall j b, j < i -> appointments !! j = Some b ->
                      strict_eq (email (patient b)) e = false)).
Proof.
  unfold findAppointment. split; intros Ht; rewrite Ht; simpl.
  - rewrite find_Some, findIndex_Some. unfold cancel_target. split.
    + intros (Hi & Hp & Hfirst). split; [| done]. by exists a.
    + intros [(x & Hx & Hp & Hfirst) Hi]. rewrite Hi in Hx.
      injection Hx as <-. done.
  - rewrite find_Some. split.
    + intros (Hi & Hp & Hfirst). rewrite andb_true_r in Hp.
      repeat split; [done.. |]. intros j b Hj Hb.
      specialize (Hfirst j b Hj Hb). by rewrite andb_true_r in Hfirst.
    + intros (Hi & Hp & Hfirst). rewrite andb_true_r.
      repeat split; [done.. |]. intros j b Hj Hb. rewrite andb_true_r. eauto.
Qed.

Lemma findAppointment_spec_witness :
  truthy JUndef = false
  /\ (findAppointment jane_email JUndef [john_apt; jane_apt] = Some (1, jane_apt) <->
      [john_apt; jane_apt] !! 1 = Some jane_apt
      /\ strict_eq (email (patient jane_apt)) jane_email = true
      /\ forall j b, j < 1 -> [john_apt; jane_apt] !! j = Some b ->
                     strict_eq (email (patient b)) jane_email = false).
Proof.
  split; [reflexivity |].
  exact (proj2 (findAppointment_spec jane_email JUndef [john_apt; jane_apt]
                  1 jane_apt) eq_refl).
Defined.

Lemma all_present_cases (rq : BookRequest) :
  all_present rq \/ ~ all_present rq.
Proof.
  unfold all_present.
  destruct (truthy (book_firstName rq)), (truthy (book_lastName rq)),
    (truthy (book_email rq)), (truthy (book_timeSlot rq)),
    (truthy (book_doctorName rq));
    first [left; done | right; intros (? & ? & ? & ? & ?); discriminate].
Qed.

(** X6.  The order of [modify]'s tests: a field that does not pass the
    [!field] test is answered 400 'All fields are required'; otherwise an
    (email, originalTimeSlot) that locates nothing is answered 404
    'Original appointment not found'; otherwise a newTimeSlot that is not a
    slot of the located appointment's doctor is answered 400 'Invalid or
    unavailable new time slot'.  The array is unchanged in each case. *)
Theorem modify_error_order (rq : ModifyRequest) (appointments : store) :
  let present :=
    truthy (modify_email rq) = true
    /\ truthy (modify_originalTimeSlot rq) = true
    /\ truthy (modify_newTimeSlot rq) = true in
  let located :=
    findAppointment (modify_email rq) (modify_originalTimeSlot rq) appointments in
  (~ present ->
   modify rq appointments
   = (Reply 400 (ErrorBody "All fields are required"), appointments))
  /\ (present -> located = None ->
      modify rq appointments
      = (Reply 404 (ErrorBody "Original appointment not found"), appointments))
  /\ (forall i a d,
        present -> located = Some (i, a) ->
        d ∈ doctors -> doctorName a = JStr (name d) ->
        (forall ts, ts ∈ slots d -> modify_newTimeSlot rq <> JStr ts) ->
        modify rq appointments
        = (Reply 400 (ErrorBody "Invalid or unavailable new time slot"),
           appointments)).
Proof.
  intros present located. subst present located. unfold modify.
  split; [| split].
  - intros Hm.
    destruct (truthy (modify_email rq)), (truthy (modify_originalTimeSlot rq)),
      (truthy (modify_newTimeSlot rq)); simpl; try reflexivity.
    by destruct Hm.
  - intros (He & Ho & Hn) Hloc. by rewrite He, Ho, Hn, Hloc.
  - intros i a d (He & Ho & Hn) Hloc Hd Hname Hun.
    rewrite He, Ho, Hn, Hloc, Hname, (find_doctor_name d Hd). simpl.
    destruct (includes (slots d) (modify_newTimeSlot rq)) eqn:Hinc; [| done].
    apply includes_spec in Hinc as (ts & Hts & Hslot). by destruct (Hun ts Hts).
Qed.

Lemma modify_error_order_witness :
  let rq := mkModify john_email s9 (JStr (str "1:00 PM - 2:00 PM")) in
  modify rq [john_apt; jane_apt]
  = (Reply 400 (ErrorBody "Invalid or unavailable new time slot"),
     [john_apt; jane_apt]).
Proof.
  intros rq.
  apply (proj2 (proj2 (modify_error_order rq [john_apt; jane_apt])) 0 john_apt
           (mkDoctor (str "Dr. Smith")
              [str "9:00 AM - 10:00 AM"; str "10:00 AM - 11:00 AM";
               str "2:00 PM - 3:00 PM"])).
  - repeat split.
  - vm_compute. reflexivity.
  - apply elem_of_doctors. by left.
  - reflexivity.
  - intros ts Hts Heq. simpl in Hts.
    rewrite !elem_of_cons, elem_of_nil in Hts.
    destruct Hts as [-> | [-> | [-> | []]]]; vm_compute in Heq; discriminate Heq.
Defined.

(** X7.  In a reachable state [modify] never throws: the doctor of every
    stored appointment is in the catalog, so [doctor.slots] is never read
    off [undefined]. *)
Theorem modify_never_throws (rq : ModifyRequest) (appointments : store) (e : exn) :
  reachable appointments -> fst (modify rq appointments) <> Uncaught e.
Proof.
  intros Hreach. apply reachable_invariant in Hreach as [Hwf _].
  rewrite Forall_lookup in Hwf.
  unfold modify. handler_cases; try discriminate.
  all: match goal with H : findAppointment _ _ _ = Some _ |- _ =>
         apply find_Some in H as (Hi & _) end.
  all: destruct (Hwf _ _ Hi) as (d & ts & Hd & Hname & _).
  all: match goal with H : find_doctor _ = None |- _ =>
         rewrite Hname, (find_doctor_name d Hd) in H; discriminate H end.
Qed.

Lemma modify_never_throws_witness :
  reachable [john_apt; jane_apt]
  /\ fst (modify (mkModify john_email s9 s10) [john_apt; jane_apt])
     <> Uncaught TypeError.
Proof.
  assert (reachable [john_apt; jane_apt]) as Hreach.
  { exists [Book john_9; Book jane_14]. vm_compute. reflexivity. }
  split; [exact Hreach |].
  exact (modify_never_throws (mkModify john_email s9 s10) [john_apt; jane_apt]
           TypeError Hreach).
Defined.


Lemma book_success_present (rq : BookRequest) (appointments : store) :
  is_success (fst (book rq appointments)) = true ->
  all_present rq /\ isValidEmail (book_email rq) = Normal true.
Proof.
  intros Hs. split.
  - destruct (all_present_cases rq) as [Hp | Hp]; [done |].
    rewrite (book_missing _ appointments Hp) in Hs. discriminate Hs.
  - destruct (isValidEmail (book_email rq)) as [[|]|] eqn:Hem; [done | |].
    + destruct (all_present_cases rq) as [Hp | Hp].
      * rewrite (book_malformed _ appointments Hp Hem) in Hs. discriminate Hs.
      * rewrite (book_missing _ appointments Hp) in Hs. discriminate Hs.
    + revert Hs. unfold book. rewrite Hem. handler_cases; discriminate.
Qed.

(** X10.  [book] answers with a success exactly when the five fields pass
    the [!field] test, the email is accepted, the doctor is in the catalog,
    the slot is one of that doctor's and no appointment holds that doctor's
    slot. *)
Theorem book_success_iff (rq : BookRequest) (appointments : store) :
  is_success (fst (book rq appointments)) = true <->
  all_present rq
  /\ isValidEmail (book_email rq) = Normal true
  /\ (exists d ts, d ∈ doctors /\ book_doctorName rq = JStr (name d)
                   /\ ts ∈ slots d /\ book_timeSlot rq = JStr ts)
  /\ (forall a, a ∈ appointments ->
                ~ (doctorName a = book_doctorName rq
                   /\ timeSlot a = book_timeSlot rq)).
Proof.
  split.
  - intros Hs. pose proof (book_success _ _ Hs) as (_ & Hcat & Hfree).
    pose proof (book_success_present _ _ Hs) as [Hp Hem]. done.
  - intros ((Hfn & Hln & _) & Hem & (d & ts & Hd & Hname & Hts & Hslot) & Hfree).
    by rewrite (book_accepts rq appointments d ts).
Qed.

(** X9.  A reachable state never holds more than six appointments, one for
    each slot of the catalog. *)
Theorem store_bounded (appointments : store) :
  reachable appointments ->
  length appointments <= length (concat (List.map slots doctors))
  /\ length (concat (List.map slots doctors)) = 6.
Proof.
  intros Hreach. apply reachable_invariant in Hreach as Hinv.
  split; [| reflexivity].
  rewrite <- (length_fmap timeSlot appointments).
  rewrite <- (length_fmap JStr (concat (List.map slots doctors))).
  apply submseteq_length, NoDup_submseteq.
  - apply NoDup_alt. intros i j t Hi Hj.
    rewrite list_lookup_fmap in Hi, Hj.
    destruct (appointments !! i) as [a|] eqn:Hai; [| discriminate].
    destruct (appointments !! j) as [b|] eqn:Hbj; [| discriminate].
    simpl in Hi, Hj. eapply invariant_slot_unique; [done.. |]. congruence.
  - intros t Ht. apply list_elem_of_fmap in Ht as (a & -> & Ha).
    destruct Hinv as [Hwf _]. rewrite Forall_forall in Hwf.
    destruct (Hwf a Ha) as (d & ts & Hd & _ & Hts & ->).
    apply list_elem_of_fmap_2, list_elem_of_In, in_concat.
    exists (slots d). split; [| by apply list_elem_of_In].
    apply in_map. by apply list_elem_of_In.
Qed.

Lemma store_bounded_witness :
  reachable [john_apt; jane_apt]
  /\ length [john_apt; jane_apt] <= length (concat (List.map slots doctors))
  /\ length (concat (List.map slots doctors)) = 6.
Proof.
  assert (reachable [john_apt; jane_apt]) as Hreach.
  { exists [Book john_9; Book jane_14]. vm_compute. reflexivity. }
  split; [exact Hreach |].
  exact (store_bounded [john_apt; jane_apt] Hreach).
Defined.

Lemma fields_ok_apply_op (o : op) (appointments : store) :
  Forall fields_ok appointments ->
  Forall fields_ok (snd (apply_op o appointments)).
Proof.
  intros Hok.
  destruct (is_success (fst (apply_op o appointments))) eqn:Hs;
    [| by rewrite apply_op_failure].
  destruct o as [rq|rq|rq]; simpl in *.
  - pose proof (book_success_present _ _ Hs) as ((Hfn & Hln & _) & Hem).
    apply book_success in Hs as (-> & _). simpl.
    apply Forall_app. split; [done |]. constructor; [| constructor].
    repeat split; simpl; [done.. | lia].
  - apply cancel_success in Hs as (i & _ & ->). simpl. by apply Forall_delete.
  - apply modify_success in Hs as (i & a & d & Hf & _ & _ & _ & ->). simpl.
    apply find_Some in Hf as (Hi & _).
    apply Forall_insert; [done |].
    rewrite Forall_lookup in Hok. exact (Hok i a Hi).
Qed.

Lemma fields_ok_run (ops : list op) (appointments : store) :
  Forall fields_ok appointments -> Forall fields_ok (run ops appointments).
Proof.
  revert appointments. induction ops as [|o ops IH]; intros s Hs; [done |].
  simpl. apply IH. by apply fields_ok_apply_op.
Qed.

(** X11.  Every appointment of a reachable state is for a catalog doctor
    at one of that doctor's slots, has an email that [isValidEmail]
    accepts, first and last names that pass the [!field] test, and an id
    of at least one. *)
Theorem stored_appointments_valid (appointments : store) (a : Appointment) :
  reachable appointments -> a ∈ appointments -> valid_appointment a.
Proof.
  intros Hreach Ha.
  pose proof (reachable_invariant _ Hreach) as [Hwf _].
  destruct Hreach as [ops <-].
  pose proof (fields_ok_run ops [] (Forall_nil_2 _)) as Hok.
  rewrite Forall_forall in Hwf, Hok.
  split; [by apply Hwf | by apply Hok].
Qed.

Lemma stored_appointments_valid_witness :
  reachable [john_apt; jane_apt] /\ jane_apt ∈ [john_apt; jane_apt]
  /\ valid_appointment jane_apt.
Proof.
  assert (reachable [john_apt; jane_apt]) as Hreach.
  { exists [Book john_9; Book jane_14]. vm_compute. reflexivity. }
  assert (jane_apt ∈ [john_apt; jane_apt]) as Hin by (right; left).
  split; [exact Hreach |]. split; [exact Hin |].
  exact (stored_appointments_valid [john_apt; jane_apt] jane_apt Hreach Hin).
Defined.

(** X12.  After a successful [book], [listByPatient] for the email of the
    request answers 200 with the earlier appointments of that email
    followed by the new one. *)
Theorem book_then_listByPatient
    (rq : BookRequest) (appointments : store) (e : jsstring) :
  book_email rq = JStr e ->
  is_success (fst (book rq appointments)) = true ->
  fst (listByPatient e (snd (book rq appointments)))
  = Reply 200 (AppointmentsBody
                 (filter (fun a => email (patient a) = JStr e) appointments
                  ++ [new_appointment rq appointments])).
Proof.
  intros He Hs.
  pose proof (book_success_present _ _ Hs) as [_ Hem].
  apply book_success in Hs as (-> & _). simpl.
  unfold listByPatient. rewrite <- He, Hem, He, filter_email.
  rewrite filter_app, filter_cons_True, filter_nil by (by simpl).
  rewrite length_app. simpl.
  by replace (_ + 1 =? 0) with false by (symmetry; apply Nat.eqb_neq; lia).
Qed.

Lemma book_then_listByPatient_witness :
  book_email jane_14 = JStr (str "jane@example.com")
  /\ is_success (fst (book jane_14 [john_apt])) = true
  /\ fst (listByPatient (str "jane@example.com") (snd (book jane_14 [john_apt])))
     = Reply 200 (AppointmentsBody
                    (filter (fun a => email (patient a)
                                      = JStr (str "jane@example.com")) [john_apt]
                     ++ [new_appointment jane_14 [john_apt]])).
Proof.
  assert (is_success (fst (book jane_14 [john_apt])) = true) as Hs
    by (vm_compute; reflexivity).
  split; [reflexivity |]. split; [exact Hs |].
  exact (book_then_listByPatient jane_14 [john_apt] (str "jane@example.com")
           eq_refl Hs).
Defined.

(** X13.  Booking and then cancelling with the email and slot of the
    booking is a round trip: from a reachable state, the cancel answers 200
    and the array is again what it was before the booking. *)
Theorem book_then_cancel (rq : BookRequest) (appointments : store) :
  reachable appointments ->
  is_success (fst (book rq appointments)) = true ->
  cancel (mkCancel (book_email rq) (book_timeSlot rq)) (snd (book rq appointments))
  = (Reply 200 (MessageBody "Appointment cancelled successfully"), appointments).
Proof.
  intros Hreach Hs. apply reachable_invariant in Hreach as [Hwf _].
  pose proof (book_success_present _ _ Hs) as ((_ & _ & Hte & Htt & _) & Hem).
  apply book_success
    in Hs as (-> & (d & ts & Hd & Hname & Hts & Hslot) & Hfree). simpl.
  apply isValidEmail_Normal in Hem as [e He].
  rewrite (cancel_found _ _ (length appointments)); [| done.. |].
  { by rewrite delete_middle, app_nil_r. }
  apply findIndex_middle.
  - intros b Hb. simpl. destruct (cancel_target _ _ b) eqn:Hp; [| done].
    apply cancel_target_eq in Hp as [_ Hsl].
    rewrite Forall_forall in Hwf.
    destruct (Hwf b Hb) as (db & tsb & Hdb & Hnb & Htsb & Hsb).
    destruct (Hfree b Hb). split; [| done].
    assert (tsb = ts) as -> by congruence.
    assert (db = d) as -> by (by eapply slot_owner). congruence.
  - simpl. unfold cancel_target, new_appointment. simpl.
    rewrite He, Hslot. by rewrite !(proj2 (strict_eq_str_r _ _) eq_refl).
Qed.

Lemma book_then_cancel_witness :
  reachable [john_apt]
  /\ is_success (fst (book jane_14 [john_apt])) = true
  /\ cancel (mkCancel (book_email jane_14) (book_timeSlot jane_14))
       (snd (book jane_14 [john_apt]))
     = (Reply 200 (MessageBody "Appointment cancelled successfully"), [john_apt]).
Proof.
  assert (reachable [john_apt]) as Hreach.
  { exists [Book john_9]. vm_compute. reflexivity. }
  assert (is_success (fst (book jane_14 [john_apt])) = true) as Hs
    by (vm_compute; reflexivity).
  split; [exact Hreach |]. split; [exact Hs |].
  exact (book_then_cancel jane_14 [john_apt] Hreach Hs).
Defined.

(** X17.  A cancelled slot is free again: from a reachable state, after a
    successful [cancel], a [book] request for the cancelled slot that has
    its fields, an accepted email and the doctor that owns the slot
    succeeds. *)
Theorem cancel_then_book
    (crq : CancelRequest) (rq : BookRequest) (appointments : store)
    (d : Doctor) (ts : jsstring) :
  reachable appointments ->
  is_success (fst (cancel crq appointments)) = true ->
  all_present rq ->
  isValidEmail (book_email rq) = Normal true ->
  d ∈ doctors -> book_doctorName rq = JStr (name d) ->
  ts ∈ slots d -> book_timeSlot rq = JStr ts ->
  book_timeSlot rq = cancel_timeSlot crq ->
  is_success (fst (book rq (snd (cancel crq appointments)))) = true.
Proof.
  intros Hreach Hs Hp Hem Hd Hname Hts Hslot Hsame.
  apply reachable_invariant in Hreach.
  apply cancel_success in Hs as (i & Hi & ->). simpl.
  destruct Hp as (Hfn & Hln & _).
  rewrite (book_accepts rq _ d ts); [reflexivity | done.. |].
  intros b Hb [_ Hsl].
  apply findIndex_Some in Hi as (a & Hia & Hpa & _).
  apply cancel_target_eq in Hpa as [_ Hsa].
  apply list_elem_of_lookup_1 in Hb as [k Hk].
  assert (timeSlot a = timeSlot b) as Heq by congruence.
  destruct (decide (k < i)).
  - rewrite list_lookup_delete_lt in Hk by done.
    pose proof (invariant_slot_unique _ _ _ _ _ Hreach Hia Hk Heq). lia.
  - rewrite list_lookup_delete_ge in Hk by lia.
    pose proof (invariant_slot_unique _ _ _ _ _ Hreach Hia Hk Heq). lia.
Qed.

Lemma cancel_then_book_witness :
  is_success (fst (book john_9 (snd (cancel (mkCancel john_email s9)
                                       [john_apt; jane_apt])))) = true.
Proof.
  apply (cancel_then_book (mkCancel john_email s9) john_9 [john_apt; jane_apt]
           (mkDoctor (str "Dr. Smith")
              [str "9:00 AM - 10:00 AM"; str "10:00 AM - 11:00 AM";
               str "2:00 PM - 3:00 PM"])
           (str "9:00 AM - 10:00 AM")).
  - exists [Book john_9; Book jane_14]. vm_compute. reflexivity.
  - vm_compute. reflexivity.
  - repeat split.
  - vm_compute. reflexivity.
  - apply elem_of_doctors. by left.
  - reflexivity.
  - simpl. left.
  - reflexivity.
  - reflexivity.
Defined.

Lemma modify_success_present (rq : ModifyRequest) (appointments : store) :
  is_success (fst (modify rq appointments)) = true ->
  truthy (modify_email rq) = true
  /\ truthy (modify_originalTimeSlot rq) = true
  /\ truthy (modify_newTimeSlot rq) = true.
Proof.
  unfold modify.
  destruct (truthy (modify_email rq)), (truthy (modify_originalTimeSlot rq)),
    (truthy (modify_newTimeSlot rq)); simpl; done.
Qed.

(** X14.  Modifying back is a round trip: from a reachable state, after a
    successful [modify] from the original slot to the new one, the request
    with the two slots swapped answers 200 with the appointment as it was,
    and the array is again what it was before the first request. *)
Theorem modify_then_back (rq : ModifyRequest) (appointments : store) :
  reachable appointments ->
  is_success (fst (modify rq appointments)) = true ->
  exists i located,
    findAppointment (modify_email rq) (modify_originalTimeSlot rq) appointments
    = Some (i, located)
    /\ modify (mkModify (modify_email rq) (modify_newTimeSlot rq)
                 (modify_originalTimeSlot rq))
         (snd (modify rq appointments))
       = (Reply 200 (AppointmentBody located), appointments).
Proof.
  intros Hreach Hs. apply reachable_invariant in Hreach as [Hwf Huniq].
  pose proof (modify_success_present _ _ Hs) as (He & Ho & Hn).
  apply modify_success in Hs as (i & a & d & Hf & Hfd & Hinc & Hfree & ->).
  exists i, a. split; [exact Hf |]. simpl.
  apply find_Some in Hf as (Hi & Hp & _).
  apply andb_true_iff in Hp as [Hpe Hpo]. rewrite Ho in Hpo. simpl in Hpo.
  apply strict_eq_eq in Hpo.
  pose proof (find_doctor_Some _ _ Hfd) as [Hd Hname].
  apply includes_spec in Hinc as (tsn & Htsn & Hnew).
  rewrite Forall_lookup in Hwf.
  destruct (Hwf i a Hi) as (da & tsa & Hda & Hna & Htsa & Hsa).
  assert (da = d) as -> by (apply name_inj; [done.. | congruence]).
  rewrite existsb_false in Hfree.
  assert (forall b, b ∈ appointments -> timeSlot b <> modify_newTimeSlot rq)
    as Hnone.
  { intros b Hb Hsl. pose proof (Hfree b Hb) as Hfb. simpl in Hfb.
    apply list_elem_of_lookup_1 in Hb as [k Hk].
    destruct (Hwf k b Hk) as (db & tsb & Hdb & Hnb & Htsb & Hsb).
    assert (tsb = tsn) as -> by congruence.
    assert (db = d) as -> by (by eapply slot_owner).
    rewrite Hnb, Hname, Hsl, Hnew in Hfb.
    rewrite !(proj2 (strict_eq_str_r _ _) eq_refl) in Hfb. done. }
  set (a' := set_timeSlot a (modify_newTimeSlot rq)).
  set (s' := <[i := a']> appointments).
  assert (i < length appointments) as Hlt by (by eapply lookup_lt_Some).
  assert (set_timeSlot a' (modify_originalTimeSlot rq) = a) as Hback.
  { destruct a. simpl in *. subst. reflexivity. }
  rewrite (modify_located _ s' i a' d); simpl; try done.
  - destruct (existsb _ s') eqn:Hex.
    + apply existsb_elem_of in Hex as (x & Hx & Hpx).
      apply andb_true_iff in Hpx as [H1 H2]. apply strict_eq_eq in H1, H2.
      apply list_elem_of_lookup_1 in Hx as [k Hk]. subst s'.
      apply list_lookup_insert_Some in Hk as [(-> & <- & _) | [Hki Hk]].
      * simpl in H2. destruct (Hnone a (list_elem_of_lookup_2 _ _ _ Hi)).
        congruence.
      * destruct Hki. eapply Huniq; [done.. | congruence].
    + rewrite Hback. subst s'. rewrite list_insert_insert_eq.
      by rewrite list_insert_id.
  - apply find_Some. split; [by apply list_lookup_insert_eq |]. split.
    + subst a'. simpl. rewrite Hpe, Hn. simpl.
      rewrite Hnew. by apply strict_eq_str_r.
    + intros j b Hj Hb. subst s'.
      rewrite list_lookup_insert_ne in Hb by lia.
      destruct (strict_eq (timeSlot b) (modify_newTimeSlot rq)) eqn:Hsb.
      * apply strict_eq_eq in Hsb.
        by destruct (Hnone b (list_elem_of_lookup_2 _ _ _ Hb)).
      * rewrite Hn. simpl. apply andb_false_r.
  - apply includes_spec. exists tsa. split; [done | congruence].
Qed.

Lemma modify_then_back_witness :
  reachable [john_apt; jane_apt]
  /\ is_success (fst (modify (mkModify john_email s9 s10) [john_apt; jane_apt]))
     = true
  /\ exists i located,
       findAppointment john_email s9 [john_apt; jane_apt] = Some (i, located)
       /\ modify (mkModify john_email s10 s9)
            (snd (modify (mkModify john_email s9 s10) [john_apt; jane_apt]))
          = (Reply 200 (AppointmentBody located), [john_apt; jane_apt]).
Proof.
  assert (reachable [john_apt; jane_apt]) as Hreach.
  { exists [Book john_9; Book jane_14]. vm_compute. reflexivity. }
  assert (is_success (fst (modify (mkModify john_email s9 s10)
                             [john_apt; jane_apt])) = true) as Hs
    by (vm_compute; reflexivity).
  split; [exact Hreach |]. split; [exact Hs |].
  exact (modify_then_back (mkModify john_email s9 s10) [john_apt; jane_apt]
           Hreach Hs).
Defined.

(** X15.  As long as no cancel request is served, the id of every stored
    appointment is its position in the array plus one, so that ids are
    pairwise distinct. *)
Theorem ids_sequential_without_cancel
    (ops : list op) (i : nat) (a : Appointment) :
  Forall (fun o => match o with Cancel _ => False | _ => True end) ops ->
  run ops [] !! i = Some a ->
  id a = i + 1.
Proof.
  intros Hops.
  assert (forall s,
            (forall k x, s !! k = Some x -> id x = k + 1) ->
            forall k x, run ops s !! k = Some x -> id x = k + 1) as Hgen.
  { induction Hops as [|o ops Ho _ IH]; intros s Hs; [done |].
    simpl. apply IH. clear IH.
    destruct (is_success (fst (apply_op o s))) eqn:Hsucc;
      [| by rewrite apply_op_failure].
    destruct o as [rq|rq|rq]; [| done |]; simpl in *.
    - apply book_success in Hsucc as (-> & _). simpl. intros k x Hk.
      apply lookup_snoc_Some in Hk as [[_ Hk] | [-> <-]]; [by apply Hs |].
      reflexivity.
    - apply modify_success in Hsucc as (j & b & d & Hf & _ & _ & _ & ->).
      apply find_Some in Hf as (Hj & _). simpl. intros k x Hk.
      apply list_lookup_insert_Some in Hk as [(-> & <- & _) | [_ Hk]].
      + simpl. by apply Hs.
      + by apply Hs. }
  apply Hgen. intros k x Hk. by destruct k.
Qed.

Lemma ids_sequential_without_cancel_witness :
  Forall (fun o => match o with Cancel _ => False | _ => True end)
    [Book john_9; Book jane_14; Modify (mkModify john_email s9 s10)]
  /\ run [Book john_9; Book jane_14; Modify (mkModify john_email s9 s10)] [] !! 1
     = Some jane_apt
  /\ id jane_apt = 1 + 1.
Proof.
  assert (Forall (fun o => match o with Cancel _ => False | _ => True end)
            [Book john_9; Book jane_14; Modify (mkModify john_email s9 s10)])
    as Hops by (repeat constructor).
  assert (run [Book john_9; Book jane_14; Modify (mkModify john_email s9 s10)] []
          !! 1 = Some jane_apt) as Hk by (vm_compute; reflexivity).
  split; [exact Hops |]. split; [exact Hk |].
  exact (ids_sequential_without_cancel _ 1 jane_apt Hops Hk).
Defined.

(** X16.  How the size of the array moves: a successful [book] adds one
    appointment, a successful [cancel] takes one away, and every other
    answer of [book] and [cancel], and every answer of [modify], leaves
    the size as it was. *)
Theorem store_size (o : op) (appointments : store) :
  length (snd (apply_op o appointments))
  = match o with
    | Book _ =>
        if is_success (fst (apply_op o appointments))
        then length appointments + 1 else length appointments
    | Cancel _ =>
        if is_success (fst (apply_op o appointments))
        then length appointments - 1 else length appointments
    | Modify _ => length appointments
    end.
Proof.
  destruct (is_success (fst (apply_op o appointments))) eqn:Hs.
  - destruct o as [rq|rq|rq]; simpl in *.
    + apply book_success in Hs as (-> & _). simpl. rewrite length_app. simpl. lia.
    + apply cancel_success in Hs as (i & Hi & ->). simpl.
      apply findIndex_Some in Hi as (a & Hi & _).
      rewrite length_delete; [reflexivity |]. by eexists.
    + apply modify_success in Hs as (i & a & d & _ & _ & _ & _ & ->). simpl.
      apply length_insert.
  - rewrite apply_op_failure by done. by destruct o.
Qed.

(** X18.  [modify] answers with a success exactly when its three fields
    pass the [!field] test, (email, originalTimeSlot) locates an
    appointment whose doctor is in the catalog, newTimeSlot is a slot of
    that doctor, and no appointment of that doctor holds newTimeSlot.  A
    request whose new slot is the original one therefore never succeeds. *)
Theorem modify_success_iff (rq : ModifyRequest) (appointments : store) :
  (is_success (fst (modify rq appointments)) = true <->
   (truthy (modify_email rq) = true
    /\ truthy (modify_originalTimeSlot rq) = true
    /\ truthy (modify_newTimeSlot rq) = true)
   /\ exists i a d ts,
        findAppointment (modify_email rq) (modify_originalTimeSlot rq) appointments
        = Some (i, a)
        /\ d ∈ doctors /\ doctorName a = JStr (name d)
        /\ ts ∈ slots d /\ modify_newTimeSlot rq = JStr ts
        /\ forall b, b ∈ appointments ->
                     ~ (doctorName b = doctorName a
                        /\ timeSlot b = modify_newTimeSlot rq))
  /\ (is_success (fst (modify rq appointments)) = true ->
      modify_originalTimeSlot rq <> modify_newTimeSlot rq).
Proof.
  assert (is_success (fst (modify rq appointments)) = true ->
          (truthy (modify_email rq) = true
           /\ truthy (modify_originalTimeSlot rq) = true
           /\ truthy (modify_newTimeSlot rq) = true)
          /\ exists i a d ts,
               findAppointment (modify_email rq) (modify_originalTimeSlot rq)
                 appointments = Some (i, a)
               /\ d ∈ doctors /\ doctorName a = JStr (name d)
               /\ ts ∈ slots d /\ modify_newTimeSlot rq = JStr ts
               /\ forall b, b ∈ appointments ->
                            ~ (doctorName b = doctorName a
                               /\ timeSlot b = modify_newTimeSlot rq)) as Hfwd.
  { intros Hs. split; [by apply modify_success_present in Hs |].
    apply modify_success in Hs as (i & a & d & Hf & Hfd & Hinc & Hfree & _).
    apply find_doctor_Some in Hfd as [Hd Hname].
    apply includes_spec in Hinc as (ts & Hts & Hnew).
    exists i, a, d, ts. repeat split; try done.
    intros b Hb [Hdn Hsl]. rewrite existsb_false in Hfree.
    specialize (Hfree b Hb). simpl in Hfree.
    rewrite Hdn, Hsl, Hname, Hnew in Hfree.
    rewrite !(proj2 (strict_eq_str_r _ _) eq_refl) in Hfree. done. }
  split; [split; [exact Hfwd |] |].
  - intros ((He & Ho & Hn) & i & a & d & ts & Hf & Hd & Hname & Hts & Hnew & Hfree).
    rewrite (modify_located rq appointments i a d); try done.
    + destruct (existsb _ appointments) eqn:Hex; [| reflexivity].
      apply existsb_elem_of in Hex as (b & Hb & Hpb).
      apply andb_true_iff in Hpb as [H1 H2]. apply strict_eq_eq in H1, H2.
      by destruct (Hfree b Hb).
    + rewrite Hname. by apply find_doctor_name.
    + apply includes_spec. eauto.
  - intros Hs Heq.
    destruct (Hfwd Hs) as ((_ & Ho & _) & i & a & _ & _ & Hf & _ & _ & _ & _ & Hfree).
    apply find_Some in Hf as (Hi & Hp & _).
    apply andb_true_iff in Hp as [_ Hpo]. rewrite Ho in Hpo. simpl in Hpo.
    apply strict_eq_eq in Hpo.
    destruct (Hfree a (list_elem_of_lookup_2 _ _ _ Hi)). split; congruence.
Qed.

Lemma modify_success_iff_witness :
  is_success (fst (modify (mkModify john_email s9 s10) [john_apt; jane_apt])) = true
  /\ modify_originalTimeSlot (mkModify john_email s9 s10)
     <> modify_newTimeSlot (mkModify john_email s9 s10).
Proof.
  assert (is_success (fst (modify (mkModify john_email s9 s10)
                             [john_apt; jane_apt])) = true) as Hs
    by (vm_compute; reflexivity).
  split; [exact Hs |].
  exact (proj2 (modify_success_iff (mkModify john_email s9 s10)
                  [john_apt; jane_apt]) Hs).
Defined.

(** X19.  In a reachable state a slot label alone identifies the
    appointment: no two positions hold appointments with the same
    timeSlot, whoever the patients and doctors are. *)
Theorem slot_identifies_appointment
    (appointments : store) (i j : nat) (a b : Appointment) :
  reachable appointments ->
  appointments !! i = Some a -> appointments !! j = Some b ->
  timeSlot a = timeSlot b -> i = j.
Proof.
  intros Hreach. apply reachable_invariant in Hreach.
  by apply invariant_slot_unique.
Qed.

Lemma slot_identifies_appointment_witness :
  reachable [john_apt; jane_apt]
  /\ [john_apt; jane_apt] !! 1 = Some jane_apt
  /\ timeSlot jane_apt = timeSlot jane_apt
  /\ 1 = 1.
Proof.
  assert (reachable [john_apt; jane_apt]) as Hreach.
  { exists [Book john_9; Book jane_14]. vm_compute. reflexivity. }
  split; [exact Hreach |]. split; [reflexivity |]. split; [reflexivity |].
  exact (slot_identifies_appointment [john_apt; jane_apt] 1 1 jane_apt jane_apt
           Hreach eq_refl eq_refl eq_refl).
Defined.
